(** * The transcription WebSocket relay of [app/backend/app.py]

    A shallow embedding of [TranscriptionManager] and [handle_transcribe_ws]
    and the properties of the relay's lifecycle that the specification
    states about them.

    Everything the relay talks to (the process environment, the Speech SDK,
    the client socket, [json.loads]) is outside the file under study.  It is
    collected in one record, [World], that fixes how each external call
    answers; the code of the relay is a function of that record and of a
    mutable [Session].  Every externally visible action is appended to the
    session's [trace], oldest first, so that "is sent", "is invoked" and
    "before" are statements about that list. *)

From Stdlib Require Import String Ascii List Bool Arith ZArith Lia.
From Stdlib Require Import DecimalString.
Import ListNotations.
Local Open Scope list_scope.
Local Open Scope string_scope.
Set Warnings "-register-all,-abstract-large-number".

(** ** Python values the relay handles *)

(** An exception object: its class name and [str(e)]. Every class that occurs
    here derives from [Exception]; task cancellation, which does not, is not
    modelled. *)
Record exn : Type := mk_exn { exn_class : string; exn_str : string }.

Definition ValueError (text : string) : exn := mk_exn "ValueError" text.
Definition AttributeError (text : string) : exn := mk_exn "AttributeError" text.
Definition JSONDecodeError (text : string) : exn := mk_exn "JSONDecodeError" text.

(** [isinstance(e, json.JSONDecodeError)] *)
Definition is_JSONDecodeError (e : exn) : bool :=
  String.eqb (exn_class e) "JSONDecodeError".

(** The result of [json.loads]: Python's [None], [bool], [int], [float],
    [str], [list] and [dict].  A float keeps its literal; a dict keeps its
    pairs in insertion order. *)
Inductive json : Type :=
| JNull
| JBool (b : bool)
| JInt (z : Z)
| JFloat (literal : string)
| JStr (s : string)
| JArr (items : list json)
| JObj (pairs : list (string * json)).

(** [type(data).__name__] *)
Definition type_name (data : json) : string :=
  match data with
  | JNull => "NoneType"
  | JBool _ => "bool"
  | JInt _ => "int"
  | JFloat _ => "float"
  | JStr _ => "str"
  | JArr _ => "list"
  | JObj _ => "dict"
  end.

(** Lookup in a dict built from a pair list: a later pair with the same key
    has overwritten an earlier one. *)
Fixpoint dict_get (pairs : list (string * json)) (key : string) : option json :=
  match pairs with
  | [] => None
  | (k, v) :: rest =>
      match dict_get rest key with
      | Some v' => Some v'
      | None => if String.eqb k key then Some v else None
      end
  end.

(** [data.get(key)]: only a dict has the method; on any other value the
    attribute lookup itself raises. *)
Definition py_get (data : json) (key : string) : exn + option json :=
  match data with
  | JObj pairs => inr (dict_get pairs key)
  | _ => inl (AttributeError
                ("'" ++ type_name data ++ "' object has no attribute 'get'"))
  end.

(** [v == s] for the result [v] of [dict.get] and a string [s] *)
Definition py_eq_str (v : option json) (s : string) : bool :=
  match v with
  | Some (JStr t) => String.eqb t s
  | _ => false
  end.

(** Truth value of what [os.getenv] returns: [None] and the empty string are
    false. *)
Definition truthy (v : option string) : bool :=
  match v with
  | Some s => negb (String.eqb s "")
  | None => false
  end.

(** [str(v)] for an optional object *)
Definition str_opt {A : Type} (show : A -> string) (v : option A) : string :=
  match v with
  | Some a => show a
  | None => "None"
  end.

(** ** The Speech SDK's enumerations and events *)

Inductive ResultReason : Type :=
| NoMatch
| Canceled
| RecognizingSpeech
| RecognizedSpeech
| RecognizingIntent
| RecognizedIntent
| TranslatingSpeech
| TranslatedSpeech
| RecognizingKeyword
| RecognizedKeyword.

Inductive CancellationReason : Type :=
| Error
| EndOfStream
| CancelledByUser.

Definition ResultReason_eqb (a b : ResultReason) : bool :=
  match a, b with
  | NoMatch, NoMatch | Canceled, Canceled
  | RecognizingSpeech, RecognizingSpeech | RecognizedSpeech, RecognizedSpeech
  | RecognizingIntent, RecognizingIntent | RecognizedIntent, RecognizedIntent
  | TranslatingSpeech, TranslatingSpeech | TranslatedSpeech, TranslatedSpeech
  | RecognizingKeyword, RecognizingKeyword
  | RecognizedKeyword, RecognizedKeyword => true
  | _, _ => false
  end.

Definition CancellationReason_eqb (a b : CancellationReason) : bool :=
  match a, b with
  | Error, Error | EndOfStream, EndOfStream
  | CancelledByUser, CancelledByUser => true
  | _, _ => false
  end.

(** [str(reason)], as an f-string renders an [Enum] member *)
Definition CancellationReason_str (r : CancellationReason) : string :=
  match r with
  | Error => "CancellationReason.Error"
  | EndOfStream => "CancellationReason.EndOfStream"
  | CancelledByUser => "CancellationReason.CancelledByUser"
  end.

(** [evt.result] of a recognition event *)
Record SpeechResult : Type := mk_result {
  result_text : string;
  result_reason : ResultReason
}.

(** An event raised by the recognizer on its own thread, by signal:
    [recognizing], [recognized], [canceled], [session_stopped].  A Canceled
    event is given by the reason and the error details of its cancellation. *)
Inductive SdkEvent : Type :=
| EvRecognizing (result : SpeechResult)
| EvRecognized (result : SpeechResult)
| EvCanceled (reason : CancellationReason) (error_details : string)
| EvSessionStopped.

(** *** The object a callback of [canceled] receives

    The callback of the [canceled] signal reads attributes of the object it
    is handed, so that object is kept as what it is in Python: a class name
    and the attributes it has. *)

(** The values such an attribute holds: a string, a member of
    [CancellationReason], or the SDK's [CancellationDetails]. *)
Inductive PyVal : Type :=
| PyStr (s : string)
| PyReason (r : CancellationReason)
| PyDetails (reason : CancellationReason) (error_details : string).

Record PyObject : Type := mk_object {
  class_name : string;
  attributes : list (string * PyVal)
}.

Fixpoint lookup (attrs : list (string * PyVal)) (name : string) : option PyVal :=
  match attrs with
  | [] => None
  | (k, v) :: rest => if String.eqb k name then Some v else lookup rest name
  end.

(** [obj.name] *)
Definition getattr (obj : PyObject) (name : string) : exn + PyVal :=
  match lookup (attributes obj) name with
  | Some v => inr v
  | None => inl (AttributeError
                   ("'" ++ class_name obj ++ "' object has no attribute '" ++ name ++ "'"))
  end.

(** [str(v)], as an f-string renders [v] *)
Definition py_str (v : PyVal) : string :=
  match v with
  | PyStr s => s
  | PyReason r => CancellationReason_str r
  | PyDetails r d =>
      "CancellationDetails(reason=" ++ CancellationReason_str r
      ++ ", error_details=" ++ String "034"%char d ++ String "034"%char ")"
  end.

(** [v == CancellationReason.<r>] *)
Definition is_reason (v : PyVal) (r : CancellationReason) : bool :=
  match v with
  | PyReason r' => CancellationReason_eqb r' r
  | _ => false
  end.

(** The object the SDK hands to a callback of [canceled]: a
    [SpeechRecognitionCanceledEventArgs].  Reason and error details are
    attributes of its [cancellation_details], not of the object itself.  Its
    other attributes ([session_id], [offset], [result]) are left out: no
    callback reads them, and neither [reason] nor [error_details] is among
    them. *)
Definition canceled_event_args (reason : CancellationReason) (error_details : string)
    : PyObject :=
  mk_object "SpeechRecognitionCanceledEventArgs"
    [("cancellation_details", PyDetails reason error_details)].

(** ** Frames *)

(** The dict handed to [ws.send_json]: always a [type] and a [text]. *)
Record OutMsg : Type := mk_msg { msg_type : string; msg_text : string }.

Inductive WSMsgType : Type :=
| CONTINUATION | TEXT | BINARY | PING | PONG | CLOSE | CLOSING | CLOSED | ERROR.

(** A message as [async for msg in ws] yields it; [msg_data] is the text of a
    TEXT frame. *)
Record WSMessage : Type := mk_frame { frame_type : WSMsgType; frame_data : string }.

(** One turn of the socket's asynchronous iterator: it yields a message or
    the receive itself raises.  The end of the list is the end of the
    iteration.  The loop is modelled for every message type the body tests
    for, whether or not the iterator of a given transport yields it. *)
Inductive Inbound : Type :=
| Recv (msg : WSMessage)
| RecvRaises (e : exn).

(** ** The world outside the relay *)

(** The steps of [initialize_speech_recognizer] that call into the SDK and
    may raise. *)
Inductive InitStep : Type :=
| MkSpeechConfig
| MkSpeechRecognizer
| ConnectRecognizing
| ConnectRecognized
| ConnectCanceled
| ConnectSessionStopped.

(** How every external call answers.  A call that is made repeatedly is
    indexed by the number of earlier calls of the same kind; [None] means the
    call returns normally, [Some e] that it raises [e]. *)
Record World : Type := mk_world {
  getenv : string -> option string;            (* os.getenv *)
  json_loads : string -> exn + json;           (* json.loads *)
  remote : option string;                      (* request.remote *)
  prepare_fault : option exn;                  (* ws.prepare(request) *)
  init_fault : InitStep -> option exn;
  start_fault : nat -> option exn;             (* start_continuous_recognition() *)
  stop_fault : nat -> option exn;              (* stop_continuous_recognition() *)
  send_fault : nat -> option exn;              (* ws.send_json(...) *)
  ws_exception : option exn                    (* ws.exception() *)
}.

(** ** The session *)

Inductive Level : Type := INFO | ERROR_LEVEL.

(** What a callback does on the SDK's thread: it logs, or it hands the
    coroutine [self._send_message(m)] to the connection's event loop with
    [asyncio.run_coroutine_threadsafe]. *)
Inductive ThreadAction : Type :=
| TLog (level : Level) (text : string)
| TSubmit (m : OutMsg).

(** A [SpeechRecognizer] as the relay builds it: its configuration and the
    callbacks connected to each of its four signals. *)
Record Recognizer : Type := mk_recognizer {
  subscription : string;
  region : string;
  speech_recognition_language : string;
  on_recognizing : list (SpeechResult -> list ThreadAction);
  on_recognized : list (SpeechResult -> list ThreadAction);
  on_canceled : list (PyObject -> exn + list ThreadAction);
  on_session_stopped : list (list ThreadAction)
}.

Inductive Method : Type := start_recognition_m | stop_recognition_m.

(** What the relay does to the outside, in the order it does it. *)
Inductive Effect : Type :=
| ELog (level : Level) (text : string)         (* logger.info / logger.error *)
| EPrepare (raised : option exn)               (* ws.prepare(request) *)
| ERecv (i : Inbound)                          (* one turn of [async for] *)
| ESend (m : OutMsg) (raised : option exn)     (* ws.send_json(m) *)
| EUpStart (raised : option exn)               (* start_continuous_recognition() *)
| EUpStop (raised : option exn)                (* stop_continuous_recognition() *)
| ECall (m : Method).                          (* entry into a manager method *)

(** The fields of [TranscriptionManager] the code reads and writes, the
    frames the socket has still to deliver, and what has happened so far. *)
Record Session : Type := mk_session {
  speech_recognizer : option Recognizer;
  is_running : bool;
  inbox : list Inbound;
  trace : list Effect
}.

Definition set_recognizer (r : option Recognizer) (s : Session) : Session :=
  mk_session r (is_running s) (inbox s) (trace s).
Definition set_running (b : bool) (s : Session) : Session :=
  mk_session (speech_recognizer s) b (inbox s) (trace s).
Definition set_inbox (fs : list Inbound) (s : Session) : Session :=
  mk_session (speech_recognizer s) (is_running s) fs (trace s).
Definition emit (e : Effect) (s : Session) : Session :=
  mk_session (speech_recognizer s) (is_running s) (inbox s) (trace s ++ [e]).

(** [TranscriptionManager.__init__] on a socket that will deliver [frames] *)
Definition new_session (frames : list Inbound) : Session :=
  mk_session None false frames [].

(** *** Reading a trace *)

Definition is_send (e : Effect) : bool :=
  match e with ESend _ _ => true | _ => false end.
Definition is_up_start (e : Effect) : bool :=
  match e with EUpStart _ => true | _ => false end.
Definition is_up_stop (e : Effect) : bool :=
  match e with EUpStop _ => true | _ => false end.
Definition is_recv (e : Effect) : bool :=
  match e with ERecv _ => true | _ => false end.
Definition is_call (m : Method) (e : Effect) : bool :=
  match e, m with
  | ECall start_recognition_m, start_recognition_m => true
  | ECall stop_recognition_m, stop_recognition_m => true
  | _, _ => false
  end.

Definition count (p : Effect -> bool) (tr : list Effect) : nat :=
  length (filter p tr).

(** The dicts passed to [ws.send_json], in order. *)
Fixpoint sends (tr : list Effect) : list OutMsg :=
  match tr with
  | [] => []
  | ESend m _ :: rest => m :: sends rest
  | _ :: rest => sends rest
  end.

(** The frames that reached the client: the sends that returned. *)
Fixpoint delivered (tr : list Effect) : list OutMsg :=
  match tr with
  | [] => []
  | ESend m None :: rest => m :: delivered rest
  | _ :: rest => delivered rest
  end.

(** ** Control flow: state and exceptions *)

Inductive Outcome (A : Type) : Type :=
| Returns (a : A)
| Raises (e : exn).
Arguments Returns {A} a.
Arguments Raises {A} e.

Definition M (A : Type) : Type := Session -> Outcome A * Session.

Definition ret {A : Type} (a : A) : M A := fun s => (Returns a, s).
Definition raise {A : Type} (e : exn) : M A := fun s => (Raises e, s).
Definition bind {A B : Type} (c : M A) (k : A -> M B) : M B :=
  fun s =>
    match c s with
    | (Returns a, s') => k a s'
    | (Raises e, s') => (Raises e, s')
    end.

Declare Scope relay_scope.
Delimit Scope relay_scope with relay.
Notation "x <- c ;; k" := (bind c (fun x => k))
  (at level 61, c at next level, right associativity) : relay_scope.
Notation "c ;; k" := (bind c (fun _ => k))
  (at level 61, right associativity) : relay_scope.
Local Open Scope relay_scope.

(** [try: body  except <class> as e: handler e], for the exceptions [catches]
    accepts *)
Definition try_except {A : Type} (body : M A) (catches : exn -> bool)
    (handler : exn -> M A) : M A :=
  fun s =>
    match body s with
    | (Raises e, s') => if catches e then handler e s' else (Raises e, s')
    | r => r
    end.

(** [try: body  finally: cleanup] *)
Definition try_finally {A : Type} (body : M A) (cleanup : M unit) : M A :=
  fun s =>
    let (r, s') := body s in
    match cleanup s' with
    | (Returns _, s'') => (r, s'')
    | (Raises e, s'') => (Raises e, s'')
    end.

Definition any_Exception (_ : exn) : bool := true.

Definition modify (f : Session -> Session) : M unit := fun s => (Returns tt, f s).
Definition gets {A : Type} (f : Session -> A) : M A := fun s => (Returns (f s), s).

(** An external call whose answer the world fixes: the effect is recorded
    with its answer, and a raising call raises. *)
Definition external (fault : option exn) (e : option exn -> Effect) : M unit :=
  fun s =>
    match fault with
    | None => (Returns tt, emit (e None) s)
    | Some x => (Raises x, emit (e (Some x)) s)
    end.

Definition log (l : Level) (text : string) : M unit := modify (emit (ELog l text)).

(** ** [TranscriptionManager]: the callbacks *)

(** The callbacks of [recognizing] and [recognized] read [evt.result.text]
    and [evt.result.reason], which the SDK's event has; they take the result
    as their argument.  The callback of [canceled] reads [evt.reason] and
    [evt.error_details] off the event object itself; it takes the object, and
    an attribute that is not there raises out of it before anything is logged
    or handed to the loop. *)

Definition _recognizing_handler (result : SpeechResult) : list ThreadAction :=
  [TSubmit (mk_msg "partial_transcript" (result_text result))].

Definition _recognized_handler (result : SpeechResult) : list ThreadAction :=
  if ResultReason_eqb (result_reason result) RecognizedSpeech then
    [TSubmit (mk_msg "final_transcript" (result_text result))]
  else if ResultReason_eqb (result_reason result) NoMatch then
    [TLog INFO "No speech recognized"]
  else [].

Definition _canceled_handler (evt : PyObject) : exn + list ThreadAction :=
  match getattr evt "reason" with
  | inl e => inl e
  | inr reason =>
      let error_msg := "Recognition canceled. Reason: " ++ py_str reason in
      let report error_msg :=
        inr [TLog ERROR_LEVEL error_msg; TSubmit (mk_msg "error" error_msg)] in
      if is_reason reason Error then
        match getattr evt "error_details" with
        | inl e => inl e
        | inr details => report (error_msg ++ " Error details: " ++ py_str details)
        end
      else report error_msg
  end.

Definition _session_stopped_handler : list ThreadAction :=
  [TLog INFO "Speech recognition session stopped";
   TSubmit (mk_msg "info" "Session stopped")].

Definition connect_recognizing h (r : Recognizer) : Recognizer :=
  mk_recognizer (subscription r) (region r) (speech_recognition_language r)
    (on_recognizing r ++ [h]) (on_recognized r) (on_canceled r) (on_session_stopped r).
Definition connect_recognized h (r : Recognizer) : Recognizer :=
  mk_recognizer (subscription r) (region r) (speech_recognition_language r)
    (on_recognizing r) (on_recognized r ++ [h]) (on_canceled r) (on_session_stopped r).
Definition connect_canceled h (r : Recognizer) : Recognizer :=
  mk_recognizer (subscription r) (region r) (speech_recognition_language r)
    (on_recognizing r) (on_recognized r) (on_canceled r ++ [h]) (on_session_stopped r).
Definition connect_session_stopped h (r : Recognizer) : Recognizer :=
  mk_recognizer (subscription r) (region r) (speech_recognition_language r)
    (on_recognizing r) (on_recognized r) (on_canceled r) (on_session_stopped r ++ [h]).

(** The callbacks of a signal run one after the other on the SDK's thread.
    An exception of a callback stays on that thread: the callbacks after it
    do not run, and nothing of it reaches the logger or the event loop. *)
Fixpoint run_callbacks {A : Type} (hs : list (A -> exn + list ThreadAction)) (evt : A)
    : list ThreadAction :=
  match hs with
  | [] => []
  | h :: rest =>
      match h evt with
      | inr acts => acts ++ run_callbacks rest evt
      | inl _ => []
      end
  end.

(** The callbacks a recognizer runs for an event. *)
Definition callbacks (r : Recognizer) (ev : SdkEvent) : list ThreadAction :=
  match ev with
  | EvRecognizing result => flat_map (fun h => h result) (on_recognizing r)
  | EvRecognized result => flat_map (fun h => h result) (on_recognized r)
  | EvCanceled reason details =>
      run_callbacks (on_canceled r) (canceled_event_args reason details)
  | EvSessionStopped => flat_map (fun h => h) (on_session_stopped r)
  end.

Inductive Ctl : Type := Continue | Break.

Definition from_env (v : option string) : string :=
  match v with Some s => s | None => "" end.

(** ** [TranscriptionManager] and the route, in a given world *)

Section Relay.

Variable W : World.

Definition ws_send_json (m : OutMsg) : M unit :=
  fun s => external (send_fault W (count is_send (trace s))) (ESend m) s.

Definition start_continuous_recognition : M unit :=
  fun s => external (start_fault W (count is_up_start (trace s))) EUpStart s.

Definition stop_continuous_recognition : M unit :=
  fun s => external (stop_fault W (count is_up_stop (trace s))) EUpStop s.

(** A call into the SDK during initialization. *)
Definition sdk (step : InitStep) : M unit :=
  match init_fault W step with
  | None => ret tt
  | Some e => raise e
  end.

Definition on_recognizer (f : Recognizer -> Recognizer) : M unit :=
  modify (fun s => set_recognizer (option_map f (speech_recognizer s)) s).

Definition initialize_speech_recognizer : M bool :=
  try_except
    (let speech_key := getenv W "api_key" in
     let service_region := getenv W "region" in
     (if negb (truthy speech_key) || negb (truthy service_region)
      then raise (ValueError "Please set api_key and region in your .env file")
      else ret tt) ;;
     sdk MkSpeechConfig ;;
     sdk MkSpeechRecognizer ;;
     modify (set_recognizer
               (Some (mk_recognizer (from_env speech_key) (from_env service_region)
                        "en-US" [] [] [] []))) ;;
     sdk ConnectRecognizing ;;
     on_recognizer (connect_recognizing _recognizing_handler) ;;
     sdk ConnectRecognized ;;
     on_recognizer (connect_recognized _recognized_handler) ;;
     sdk ConnectCanceled ;;
     on_recognizer (connect_canceled _canceled_handler) ;;
     sdk ConnectSessionStopped ;;
     on_recognizer (connect_session_stopped _session_stopped_handler) ;;
     log INFO "Azure Speech SDK initialized successfully" ;;
     ret true)
    any_Exception
    (fun e =>
       log ERROR_LEVEL ("Failed to initialize Azure Speech SDK: " ++ exn_str e) ;;
       ws_send_json (mk_msg "error"
                       ("Failed to initialize speech recognition: " ++ exn_str e)) ;;
       ret false).

Definition _send_message (message : OutMsg) : M unit :=
  try_except
    (ws_send_json message)
    any_Exception
    (fun e => log ERROR_LEVEL ("Failed to send message to client: " ++ exn_str e)).

Definition start_recognition : M unit :=
  modify (emit (ECall start_recognition_m)) ;;
  r <- gets speech_recognizer ;;
  running <- gets is_running ;;
  match r with
  | Some _ =>
      if negb running then
        try_except
          (start_continuous_recognition ;;
           modify (set_running true) ;;
           log INFO "Started continuous speech recognition")
          any_Exception
          (fun e => log ERROR_LEVEL ("Failed to start speech recognition: " ++ exn_str e))
      else ret tt
  | None => ret tt
  end.

Definition stop_recognition : M unit :=
  modify (emit (ECall stop_recognition_m)) ;;
  r <- gets speech_recognizer ;;
  running <- gets is_running ;;
  match r with
  | Some _ =>
      if running then
        try_except
          (stop_continuous_recognition ;;
           modify (set_running false) ;;
           log INFO "Stopped continuous speech recognition")
          any_Exception
          (fun e => log ERROR_LEVEL ("Failed to stop speech recognition: " ++ exn_str e))
      else ret tt
  | None => ret tt
  end.

(** What the event loop does with one action of a callback. *)
Definition perform (a : ThreadAction) : M unit :=
  match a with
  | TLog l text => log l text
  | TSubmit m => _send_message m
  end.

Fixpoint perform_all (acts : list ThreadAction) : M unit :=
  match acts with
  | [] => ret tt
  | a :: rest => perform a ;; perform_all rest
  end.

(** The recognizer raises [ev]: its callbacks run and the coroutines they
    submitted run on the loop. *)
Definition fire (ev : SdkEvent) : M unit :=
  r <- gets speech_recognizer ;;
  match r with
  | Some rec => perform_all (callbacks rec ev)
  | None => ret tt
  end.

(** The body of [async for msg in ws] for one message. *)
Definition loop_body (msg : WSMessage) : M Ctl :=
  match frame_type msg with
  | TEXT =>
      try_except
        (data <- (match json_loads W (frame_data msg) with
                  | inr d => ret d
                  | inl e => raise e
                  end) ;;
         log INFO ("Received message type: " ++ type_name data) ;;
         action <- (match py_get data "action" with
                    | inr v => ret v
                    | inl e => raise e
                    end) ;;
         if py_eq_str action "close" then
           log INFO "Client requested close" ;; ret Break
         else ret Continue)
        is_JSONDecodeError
        (fun e =>
           log ERROR_LEVEL ("Failed to parse JSON message: " ++ exn_str e) ;;
           ws_send_json (mk_msg "error" ("Invalid JSON: " ++ exn_str e)) ;;
           ret Continue)
  | ERROR =>
      log ERROR_LEVEL ("WebSocket connection closed with exception "
                       ++ str_opt exn_str (ws_exception W)) ;;
      ret Break
  | CLOSE =>
      log INFO "WebSocket connection closed by client" ;;
      ret Break
  | _ => ret Continue
  end.

Fixpoint async_for (frames : list Inbound) : M unit :=
  match frames with
  | [] => ret tt
  | i :: rest =>
      modify (fun s => emit (ERecv i) (set_inbox rest s)) ;;
      match i with
      | RecvRaises e => raise e
      | Recv msg =>
          c <- loop_body msg ;;
          match c with
          | Break => ret tt
          | Continue => async_for rest
          end
      end
  end.

Definition message_loop : M unit := fun s => async_for (inbox s) s.

(** The [try] / [except Exception] / [finally] statement of the route. *)
Definition serve : M unit :=
  try_finally
    (try_except
       message_loop
       any_Exception
       (fun e =>
          log ERROR_LEVEL ("Error in transcription WebSocket: " ++ exn_str e) ;;
          ws_send_json (mk_msg "error" ("Server error: " ++ exn_str e))))
    (stop_recognition ;;
     log INFO "WebSocket /transcribe/ws closed").

Definition handle_transcribe_ws : M unit :=
  external (prepare_fault W) EPrepare ;;
  log INFO ("WebSocket /transcribe/ws connected from "
            ++ str_opt (fun a => a) (remote W)) ;;
  ok <- initialize_speech_recognizer ;;
  if negb ok then ret tt
  else
    start_recognition ;;
    serve.

End Relay.

(** ** A JSON decoder for the examples

    [json.loads] is a parameter of the development.  The concrete sessions
    below run with this decoder for it: the grammar of [json.decoder]
    (whitespace, the three literals, numbers, strings with their escapes,
    arrays, objects, [NaN] and the infinities) with the error texts of its
    [JSONDecodeError], and the [ValueError] of an integer literal that is
    longer than [int()] converts. *)

Module Decoder.

Local Open Scope char_scope.
Local Open Scope nat_scope.
Local Open Scope list_scope.

Inductive PResult (A : Type) : Type :=
| POk (a : A) (rest : list ascii) (pos : nat)
| PFail (msg : string) (pos : nat)
| PRaise (e : exn)
| PDeep.
Arguments POk {A} a rest pos.
Arguments PFail {A} msg pos.
Arguments PRaise {A} e.
Arguments PDeep {A}.

Definition is_ws (c : ascii) : bool :=
  Ascii.eqb c " " || Ascii.eqb c "009" || Ascii.eqb c "010" || Ascii.eqb c "013".

Fixpoint skip_ws (cs : list ascii) (pos : nat) : list ascii * nat :=
  match cs with
  | c :: rest => if is_ws c then skip_ws rest (S pos) else (cs, pos)
  | [] => (cs, pos)
  end.

Definition is_digit (c : ascii) : bool :=
  let n := nat_of_ascii c in (48 <=? n) && (n <=? 57).

Fixpoint take_digits (cs : list ascii) : list ascii * list ascii :=
  match cs with
  | c :: rest =>
      if is_digit c then let (ds, r) := take_digits rest in (c :: ds, r)
      else ([], cs)
  | [] => ([], [])
  end.

Definition digits_value (ds : list ascii) : Z :=
  fold_left (fun acc c => (10 * acc + Z.of_nat (nat_of_ascii c - 48))%Z) ds 0%Z.

(** The integer part of a number: [0] or a non-zero digit and more digits. *)
Definition int_part (cs : list ascii) : option (list ascii * list ascii) :=
  match cs with
  | "0" :: rest => Some (["0"], rest)
  | c :: _ => if is_digit c then Some (take_digits cs) else None
  | [] => None
  end.

Definition frac_part (cs : list ascii) : list ascii * list ascii :=
  match cs with
  | "." :: rest =>
      match take_digits rest with
      | ([], _) => ([], cs)
      | (ds, r) => ("." :: ds, r)
      end
  | _ => ([], cs)
  end.

Definition exp_digits (mark : list ascii) (after cs : list ascii)
    : list ascii * list ascii :=
  match take_digits after with
  | ([], _) => ([], cs)
  | (ds, r) => (mark ++ ds, r)
  end.

Definition exp_part (cs : list ascii) : list ascii * list ascii :=
  match cs with
  | e :: rest =>
      if Ascii.eqb e "e" || Ascii.eqb e "E" then
        match rest with
        | sgn :: rest' =>
            if Ascii.eqb sgn "+" || Ascii.eqb sgn "-"
            then exp_digits [e; sgn] rest' cs
            else exp_digits [e] rest cs
        | [] => ([], cs)
        end
      else ([], cs)
  | [] => ([], cs)
  end.

(** The number at the head of [cs], if there is one, and how long it is. *)
Definition match_number (cs : list ascii) : option (json * list ascii * nat) :=
  let (neg, body) :=
    match cs with
    | "-" :: rest => (true, rest)
    | _ => (false, cs)
    end in
  match int_part body with
  | None => None
  | Some (ds, r1) =>
      let (fr, r2) := frac_part r1 in
      let (ex, r3) := exp_part r2 in
      let sign := if neg then ["-"] else [] in
      let len := length sign + length ds + length fr + length ex in
      match fr, ex with
      | [], [] =>
          Some (JInt (if neg then - digits_value ds else digits_value ds)%Z, r3, len)
      | _, _ =>
          Some (JFloat (string_of_list_ascii (sign ++ ds ++ fr ++ ex)), r3, len)
      end
  end.

Definition show_nat (n : nat) : string := NilEmpty.string_of_uint (Nat.to_uint n).

(** The digits of the number at the head of [cs] when it is an integer, and
    zero when it has a fraction or an exponent. *)
Definition int_digits (cs : list ascii) : nat :=
  let body := match cs with "-" :: rest => rest | _ => cs end in
  match int_part body with
  | None => 0
  | Some (ds, r1) =>
      match frac_part r1, exp_part r1 with
      | ([], _), ([], _) => length ds
      | _, _ => 0
      end
  end.

(** [int()] refuses a literal of more than 4300 digits. *)
Definition max_str_digits : nat := 4300.

Definition int_too_long (digits : nat) : exn :=
  ValueError
    (String.append "Exceeds the limit (4300 digits) for integer string conversion: value has "
       (String.append (show_nat digits)
          " digits; use sys.set_int_max_str_digits() to increase the limit")).

Fixpoint strip_prefix (p cs : list ascii) : option (list ascii) :=
  match p, cs with
  | [], _ => Some cs
  | a :: p', c :: cs' => if Ascii.eqb a c then strip_prefix p' cs' else None
  | _ :: _, [] => None
  end.

Definition hex_digit (c : ascii) : option nat :=
  let n := nat_of_ascii c in
  if (48 <=? n) && (n <=? 57) then Some (n - 48)
  else if (65 <=? n) && (n <=? 70) then Some (n - 55)
  else if (97 <=? n) && (n <=? 102) then Some (n - 87)
  else None.

Definition hex4 (cs : list ascii) : option (nat * list ascii) :=
  match cs with
  | a :: b :: c :: d :: rest =>
      match hex_digit a, hex_digit b, hex_digit c, hex_digit d with
      | Some x, Some y, Some z, Some w => Some (((x * 16 + y) * 16 + z) * 16 + w, rest)
      | _, _, _, _ => None
      end
  | _ => None
  end.

(** A code point as the bytes of its UTF-8 encoding. *)
Definition utf8 (n : nat) : list ascii :=
  if n <? 128 then [ascii_of_nat n]
  else if n <? 2048 then
    [ascii_of_nat (192 + n / 64); ascii_of_nat (128 + n mod 64)]
  else if n <? 65536 then
    [ascii_of_nat (224 + n / 4096); ascii_of_nat (128 + (n / 64) mod 64);
     ascii_of_nat (128 + n mod 64)]
  else
    [ascii_of_nat (240 + n / 262144); ascii_of_nat (128 + (n / 4096) mod 64);
     ascii_of_nat (128 + (n / 64) mod 64); ascii_of_nat (128 + n mod 64)].

Definition simple_escape (c : ascii) : option ascii :=
  if Ascii.eqb c "034" then Some "034"
  else if Ascii.eqb c "\" then Some "\"
  else if Ascii.eqb c "/" then Some "/"
  else if Ascii.eqb c "b" then Some "008"
  else if Ascii.eqb c "f" then Some "012"
  else if Ascii.eqb c "n" then Some "010"
  else if Ascii.eqb c "r" then Some "013"
  else if Ascii.eqb c "t" then Some "009"
  else None.

(** The code point of a [\u] escape whose four digits gave [hi], joined with
    a low surrogate that follows a high one. *)
Definition code_point (hi : nat) (rest : list ascii) : nat * list ascii * nat :=
  if (55296 <=? hi) && (hi <=? 56319) then
    match rest with
    | "\" :: "u" :: rest' =>
        match hex4 rest' with
        | Some (lo, rest'') =>
            if (56320 <=? lo) && (lo <=? 57343)
            then (65536 + ((hi - 55296) * 1024 + (lo - 56320)), rest'', 6)
            else (hi, rest, 0)
        | None => (hi, rest, 0)
        end
    | _ => (hi, rest, 0)
    end
  else (hi, rest, 0).

(** The string whose opening quote stood at [start]; [cs] begins after it. *)
Fixpoint scanstring (fuel : nat) (cs : list ascii) (pos start : nat)
    (acc : list ascii) : PResult string :=
  match fuel with
  | O => PDeep
  | S fuel' =>
      match cs with
      | [] => PFail "Unterminated string starting at" start
      | c :: rest =>
          if Ascii.eqb c "034" then POk (string_of_list_ascii (rev acc)) rest (S pos)
          else if nat_of_ascii c <? 32 then PFail "Invalid control character at" pos
          else if Ascii.eqb c "\" then
            match rest with
            | [] => PFail "Unterminated string starting at" start
            | e :: rest' =>
                if Ascii.eqb e "u" then
                  match hex4 rest' with
                  | None => PFail "Invalid \uXXXX escape" pos
                  | Some (hi, rest'') =>
                      let '(cp, rest3, extra) := code_point hi rest'' in
                      scanstring fuel' rest3 (pos + 6 + extra) start (rev (utf8 cp) ++ acc)
                  end
                else
                  match simple_escape e with
                  | Some x => scanstring fuel' rest' (pos + 2) start (x :: acc)
                  | None => PFail "Invalid \escape" pos
                  end
            end
          else scanstring fuel' rest (S pos) start (c :: acc)
      end
  end.

Definition literal (word : string) (v : json) (cs : list ascii) (pos : nat)
    : option (PResult json) :=
  match strip_prefix (list_ascii_of_string word) cs with
  | Some rest => Some (POk v rest (pos + String.length word))
  | None => None
  end.

Definition first_of {A : Type} (xs : list (option A)) (otherwise : A) : A :=
  fold_right (fun x r => match x with Some a => a | None => r end) otherwise xs.

Fixpoint scan_once (fuel : nat) (cs : list ascii) (pos : nat) : PResult json :=
  match fuel with
  | O => PDeep
  | S fuel' =>
      match cs with
      | [] => PFail "Expecting value" pos
      | c :: rest =>
          if Ascii.eqb c "034" then
            match scanstring fuel' rest (S pos) pos [] with
            | POk s r p => POk (JStr s) r p
            | PFail m p => PFail m p
            | PRaise e => PRaise e
            | PDeep => PDeep
            end
          else if Ascii.eqb c "{" then
            let (cs1, p1) := skip_ws rest (S pos) in
            match cs1 with
            | "}" :: r => POk (JObj []) r (S p1)
            | _ => object_pairs fuel' cs1 p1 []
            end
          else if Ascii.eqb c "[" then
            let (cs1, p1) := skip_ws rest (S pos) in
            match cs1 with
            | "]" :: r => POk (JArr []) r (S p1)
            | _ => array_items fuel' cs1 p1 []
            end
          else
            first_of
              [literal "null" JNull cs pos;
               literal "true" (JBool true) cs pos;
               literal "false" (JBool false) cs pos;
               match match_number cs with
               | Some (v, r, len) =>
                   if max_str_digits <? int_digits cs
                   then Some (PRaise (int_too_long (int_digits cs)))
                   else Some (POk v r (pos + len))
               | None => None
               end;
               literal "NaN" (JFloat "NaN") cs pos;
               literal "Infinity" (JFloat "Infinity") cs pos;
               literal "-Infinity" (JFloat "-Infinity") cs pos]
              (PFail "Expecting value" pos)
      end
  end

with array_items (fuel : nat) (cs : list ascii) (pos : nat) (acc : list json)
    : PResult json :=
  match fuel with
  | O => PDeep
  | S fuel' =>
      match scan_once fuel' cs pos with
      | POk v r p =>
          let (cs1, p1) := skip_ws r p in
          match cs1 with
          | "]" :: r1 => POk (JArr (rev (v :: acc))) r1 (S p1)
          | "," :: r1 =>
              let (cs2, p2) := skip_ws r1 (S p1) in
              array_items fuel' cs2 p2 (v :: acc)
          | _ => PFail "Expecting ',' delimiter" p1
          end
      | other => other
      end
  end

with object_pairs (fuel : nat) (cs : list ascii) (pos : nat)
    (acc : list (string * json)) : PResult json :=
  match fuel with
  | O => PDeep
  | S fuel' =>
      match cs with
      | "034" :: r0 =>
          match scanstring fuel' r0 (S pos) pos [] with
          | POk key r p =>
              let (cs1, p1) := skip_ws r p in
              match cs1 with
              | ":" :: r1 =>
                  let (cs2, p2) := skip_ws r1 (S p1) in
                  match scan_once fuel' cs2 p2 with
                  | POk v r3 p3 =>
                      let (cs4, p4) := skip_ws r3 p3 in
                      match cs4 with
                      | "}" :: r5 => POk (JObj (rev ((key, v) :: acc))) r5 (S p4)
                      | "," :: r5 =>
                          let (cs6, p6) := skip_ws r5 (S p4) in
                          object_pairs fuel' cs6 p6 ((key, v) :: acc)
                      | _ => PFail "Expecting ',' delimiter" p4
                      end
                  | other => other
                  end
              | _ => PFail "Expecting ':' delimiter" p1
              end
          | PFail m p => PFail m p
          | PRaise e => PRaise e
          | PDeep => PDeep
          end
      | _ => PFail "Expecting property name enclosed in double quotes" pos
      end
  end.

Local Open Scope string_scope.

(** Line and column of position [pos], both from one. *)
Fixpoint line_col (cs : list ascii) (pos line col : nat) : nat * nat :=
  match pos, cs with
  | S pos', c :: rest =>
      if Ascii.eqb c "010"%char then line_col rest pos' (S line) 1
      else line_col rest pos' line (S col)
  | _, _ => (line, col)
  end.

Definition decode_error (doc : list ascii) (msg : string) (pos : nat) : exn :=
  let (line, col) := line_col doc pos 1 1 in
  JSONDecodeError (msg ++ ": line " ++ show_nat line ++ " column " ++ show_nat col
                   ++ " (char " ++ show_nat pos ++ ")").

Definition loads (text : string) : exn + json :=
  let doc := list_ascii_of_string text in
  let (cs, p) := skip_ws doc 0 in
  match scan_once (2 * length doc + 2) cs p with
  | POk v r p1 =>
      match skip_ws r p1 with
      | ([], _) => inr v
      | (_, p2) => inl (decode_error doc "Extra data" p2)
      end
  | PFail msg pos => inl (decode_error doc msg pos)
  | PRaise e => inl e
  | PDeep => inl (mk_exn "RecursionError" "maximum recursion depth exceeded")
  end.

End Decoder.

(** The double quote, for writing JSON texts. *)
Definition dq : string := String "034"%char EmptyString.

Definition close_request : string :=
  "{" ++ dq ++ "action" ++ dq ++ ": " ++ dq ++ "close" ++ dq ++ "}".

(** ** Concrete worlds *)

Definition configured_env (name : string) : option string :=
  if String.eqb name "api_key" then Some "0123456789abcdef"
  else if String.eqb name "region" then Some "westeurope"
  else None.

Definition no_fault {A : Type} (_ : A) : option exn := None.

(** Everything is configured and every external call succeeds. *)
Definition calm : World :=
  mk_world configured_env Decoder.loads (Some "127.0.0.1")
    None no_fault no_fault no_fault no_fault None.

(** No credential and no region in the environment. *)
Definition unconfigured : World :=
  mk_world (fun _ => None) Decoder.loads (Some "127.0.0.1")
    None no_fault no_fault no_fault no_fault None.

Definition ConnectionResetError : exn :=
  mk_exn "ConnectionResetError" "Cannot write to closing transport".

(** The client has gone: every write to the socket raises. *)
Definition client_gone : World :=
  mk_world configured_env Decoder.loads (Some "127.0.0.1")
    None no_fault no_fault no_fault (fun _ => Some ConnectionResetError) None.

Definition RuntimeError (text : string) : exn := mk_exn "RuntimeError" text.

(** The engine refuses the first start and the first stop, and accepts the
    following ones. *)
Definition flaky_engine : World :=
  mk_world configured_env Decoder.loads (Some "127.0.0.1")
    None no_fault
    (fun n => match n with O => Some (RuntimeError "SPXERR_START_FAILED") | _ => None end)
    (fun n => match n with O => Some (RuntimeError "SPXERR_STOP_FAILED") | _ => None end)
    no_fault None.

Definition text_frame (data : string) : Inbound := Recv (mk_frame TEXT data).
Definition error_frame : Inbound := Recv (mk_frame ERROR "").
Definition close_frame : Inbound := Recv (mk_frame CLOSE "").

(** The session a world and a stream of frames lead to. *)
Definition run (W : World) (frames : list Inbound) : Outcome unit * Session :=
  handle_transcribe_ws W (new_session frames).

(** ** Reading the world the way the code consults it *)

Definition init_steps : list InitStep :=
  [MkSpeechConfig; MkSpeechRecognizer; ConnectRecognizing; ConnectRecognized;
   ConnectCanceled; ConnectSessionStopped].

Fixpoint first_fault (W : World) (steps : list InitStep) : option exn :=
  match steps with
  | [] => None
  | step :: rest =>
      match init_fault W step with
      | Some e => Some e
      | None => first_fault W rest
      end
  end.

(** The credential or the region is missing from the environment. *)
Definition misconfigured (W : World) : bool :=
  negb (truthy (getenv W "api_key")) || negb (truthy (getenv W "region")).

(** The exception that makes initialization fail in [W], if one does: the
    missing configuration, else the first SDK call that raises. *)
Definition init_failure (W : World) : option exn :=
  if misconfigured W
  then Some (ValueError "Please set api_key and region in your .env file")
  else first_fault W init_steps.

(** The recognizer a successful initialization leaves in the manager. *)
Definition wired_recognizer (W : World) : Recognizer :=
  mk_recognizer (from_env (getenv W "api_key")) (from_env (getenv W "region")) "en-US"
    [_recognizing_handler] [_recognized_handler] [_canceled_handler]
    [_session_stopped_handler].

(** The manager would act on a stop: it has a recognizer and its flag is set. *)
Definition armed (s : Session) : bool :=
  match speech_recognizer s with
  | Some _ => is_running s
  | None => false
  end.

(** The manager would act on a start. *)
Definition idle (s : Session) : bool :=
  match speech_recognizer s with
  | Some _ => negb (is_running s)
  | None => false
  end.

(** The answer of an external call, as a test and as an outcome. *)
Definition raised (fault : option exn) : bool :=
  match fault with Some _ => true | None => false end.

Definition outcome_of (fault : option exn) : Outcome unit :=
  match fault with Some e => Raises e | None => Returns tt end.

(** The effects of the loop itself: it receives, logs and writes to the
    socket, and does nothing else. *)
Definition loop_effect (e : Effect) : bool :=
  match e with
  | ELog _ _ | ERecv _ | ESend _ _ => true
  | _ => false
  end.

(** Recognitions in progress according to a trace: upstream starts that
    returned, less upstream stops that returned. *)
Fixpoint active (tr : list Effect) : Z :=
  match tr with
  | [] => 0
  | EUpStart None :: rest => active rest + 1
  | EUpStop None :: rest => active rest - 1
  | _ :: rest => active rest
  end.

(** ** What the code leaves behind, written out *)

(** The session [start_recognition] leaves. *)
Definition after_start (W : World) (s : Session) : Session :=
  let s1 := emit (ECall start_recognition_m) s in
  if idle s then
    match start_fault W (count is_up_start (trace s)) with
    | None =>
        emit (ELog INFO "Started continuous speech recognition")
          (set_running true (emit (EUpStart None) s1))
    | Some e =>
        emit (ELog ERROR_LEVEL ("Failed to start speech recognition: " ++ exn_str e))
          (emit (EUpStart (Some e)) s1)
    end
  else s1.

(** The session [stop_recognition] leaves. *)
Definition after_stop (W : World) (s : Session) : Session :=
  let s1 := emit (ECall stop_recognition_m) s in
  if armed s then
    match stop_fault W (count is_up_stop (trace s)) with
    | None =>
        emit (ELog INFO "Stopped continuous speech recognition")
          (set_running false (emit (EUpStop None) s1))
    | Some e =>
        emit (ELog ERROR_LEVEL ("Failed to stop speech recognition: " ++ exn_str e))
          (emit (EUpStop (Some e)) s1)
    end
  else s1.

(** The session [_send_message m] leaves. *)
Definition after_send_message (W : World) (m : OutMsg) (s : Session) : Session :=
  match send_fault W (count is_send (trace s)) with
  | None => emit (ESend m None) s
  | Some e =>
      emit (ELog ERROR_LEVEL ("Failed to send message to client: " ++ exn_str e))
        (emit (ESend m (Some e)) s)
  end.

(** The frame a failed initialization writes. *)
Definition init_error_frame (e : exn) : OutMsg :=
  mk_msg "error" ("Failed to initialize speech recognition: " ++ exn_str e).

(** From [s] to [s'] only loop effects happened: the manager's fields are
    the same and the trace grew by receives, log lines and socket writes. *)
Definition extends_quietly (s s' : Session) : Prop :=
  speech_recognizer s' = speech_recognizer s /\
  is_running s' = is_running s /\
  exists d, trace s' = (trace s ++ d)%list /\ forallb loop_effect d = true.

(** The reply to a text frame that does not decode. *)
Definition invalid_json_frame (e : exn) : OutMsg :=
  mk_msg "error" ("Invalid JSON: " ++ exn_str e).

(** The frame the outer handler writes for an exception that left the loop. *)
Definition server_error_frame (e : exn) : OutMsg :=
  mk_msg "error" ("Server error: " ++ exn_str e).

(** The exception of [data.get] on a value that has no such method. *)
Definition no_get (data : json) : exn :=
  AttributeError ("'" ++ type_name data ++ "' object has no attribute 'get'").

(** [json.loads] returned a dict. *)
Definition is_object (data : json) : bool :=
  match data with JObj _ => true | _ => false end.

(** The value under [action] is the string [close]. *)
Definition asks_close (data : json) : bool :=
  match data with
  | JObj pairs => py_eq_str (dict_get pairs "action") "close"
  | _ => false
  end.

(** The last line of the [finally] clause. *)
Definition closed (s : Session) : Session :=
  emit (ELog INFO "WebSocket /transcribe/ws closed") s.

(** The session the [except Exception] clause leaves when it caught [e]. *)
Definition report (W : World) (e : exn) (s : Session) : Session :=
  emit (ESend (server_error_frame e) (send_fault W (count is_send (trace s))))
    (emit (ELog ERROR_LEVEL ("Error in transcription WebSocket: " ++ exn_str e)) s).

(** What [stop_recognition] does after it is entered. *)
Definition stop_effects (W : World) (s : Session) : list Effect :=
  if armed s then
    match stop_fault W (count is_up_stop (trace s)) with
    | None => [EUpStop None; ELog INFO "Stopped continuous speech recognition"]
    | Some e =>
        [EUpStop (Some e);
         ELog ERROR_LEVEL ("Failed to stop speech recognition: " ++ exn_str e)]
    end
  else [].

(** The session after the handshake and the first log line. *)
Definition connected (W : World) (frames : list Inbound) : Session :=
  emit (ELog INFO ("WebSocket /transcribe/ws connected from "
                   ++ str_opt (fun a => a) (remote W)))
    (emit (EPrepare None) (new_session frames)).

(** The session on entry to the [try] statement. *)
Definition ready (W : World) (frames : list Inbound) : Session :=
  after_start W
    (emit (ELog INFO "Azure Speech SDK initialized successfully")
       (set_recognizer (Some (wired_recognizer W)) (connected W frames))).

(** A text frame the loop passes over: it decodes to a dict whose [action]
    is not [close]. *)
Definition passed_over (W : World) (msg : WSMessage) : bool :=
  match frame_type msg, json_loads W (frame_data msg) with
  | TEXT, inr (JObj pairs) => negb (asks_close (JObj pairs))
  | _, _ => false
  end.

(** The session after the loop passed over [msgs], with [rest] to come. *)
Fixpoint skim (msgs : list WSMessage) (rest : list Inbound) (s : Session) : Session :=
  match msgs with
  | [] => s
  | m :: ms =>
      skim ms rest
        (emit (ELog INFO "Received message type: dict")
           (emit (ERecv (Recv m)) (set_inbox (map Recv ms ++ rest) s)))
  end.

(** A call of [start_recognition] or of [stop_recognition]. *)
Inductive Op : Type := OpStart | OpStop.

(** A sequence of calls of the two methods. *)
Fixpoint run_ops (W : World) (ops : list Op) : M unit :=
  match ops with
  | [] => ret tt
  | OpStart :: rest => start_recognition W ;; run_ops W rest
  | OpStop :: rest => stop_recognition W ;; run_ops W rest
  end.

(** The flag tells whether a recognition is in progress. *)
Definition flag_is_exact (s : Session) : Prop :=
  active (trace s) = (if is_running s then 1 else 0)%Z.

(** The session the event loop leaves after one action of a callback. *)
Definition after_perform (W : World) (s : Session) (a : ThreadAction) : Session :=
  match a with
  | TLog l text => emit (ELog l text) s
  | TSubmit m => after_send_message W m s
  end.

(** The text the callback of [canceled] composes from a reason and error
    details, when it can read them. *)
Definition canceled_text (reason : CancellationReason) (details : string) : string :=
  "Recognition canceled. Reason: " ++ CancellationReason_str reason
  ++ match reason with
     | Error => " Error details: " ++ details
     | _ => ""
     end.

(** ** More ways to read a trace and a stream *)

(** The turns of the socket's iterator that were taken, in order. *)
Fixpoint recvs (tr : list Effect) : list Inbound :=
  match tr with
  | [] => []
  | ERecv i :: rest => i :: recvs rest
  | _ :: rest => recvs rest
  end.

(** Upstream starts that returned, and upstream stops that were called. *)
Definition is_started (e : Effect) : bool :=
  match e with EUpStart None => true | _ => false end.

(** If the effect is a socket write, it writes an error frame. *)
Definition writes_only_errors (e : Effect) : bool :=
  match e with
  | ESend m _ => String.eqb (msg_type m) "error"
  | _ => true
  end.

(** The recognizer raises the events of [evs] one after the other. *)
Fixpoint fire_all (W : World) (evs : list SdkEvent) : M unit :=
  match evs with
  | [] => ret tt
  | ev :: rest => fire W ev ;; fire_all W rest
  end.

(** The recognizer carries the four callbacks of the manager, one on each
    signal. *)
Definition wired (r : Recognizer) : Prop :=
  on_recognizing r = [_recognizing_handler] /\
  on_recognized r = [_recognized_handler] /\
  on_canceled r = [_canceled_handler] /\
  on_session_stopped r = [_session_stopped_handler].

(** The frame an event is relayed as, if it is relayed.  A Canceled event is
    not: its callback raises on the object the SDK hands it. *)
Definition frame_of (ev : SdkEvent) : list OutMsg :=
  match ev with
  | EvRecognizing result => [mk_msg "partial_transcript" (result_text result)]
  | EvRecognized result =>
      match result_reason result with
      | RecognizedSpeech => [mk_msg "final_transcript" (result_text result)]
      | _ => []
      end
  | EvCanceled _ _ => []
  | EvSessionStopped => [mk_msg "info" "Session stopped"]
  end.

(** A message type the loop body has no branch for. *)
Definition untested_type (t : WSMsgType) : bool :=
  match t with
  | TEXT | ERROR | CLOSE => false
  | _ => true
  end.

(** What the loop answers to a benign frame: the reply to text on which
    [json.loads] raised, and nothing to anything else. *)
Definition replies (W : World) (i : Inbound) : list OutMsg :=
  match i with
  | Recv msg =>
      match frame_type msg, json_loads W (frame_data msg) with
      | TEXT, inl e => [invalid_json_frame e]
      | _, _ => []
      end
  | RecvRaises _ => []
  end.

(** A frame that does not end the loop when the socket accepts writes: a
    message of a type the body does not test for, text on which [json.loads]
    raises a [JSONDecodeError], or text on which it returns a dict that does
    not ask to close. *)
Definition benign (W : World) (i : Inbound) : bool :=
  match i with
  | Recv msg =>
      match frame_type msg with
      | TEXT =>
          match json_loads W (frame_data msg) with
          | inl e => is_JSONDecodeError e
          | inr data => is_object data && negb (asks_close data)
          end
      | t => untested_type t
      end
  | RecvRaises _ => false
  end.

(** The frames a callback handed to the event loop. *)
Fixpoint submitted (acts : list ThreadAction) : list OutMsg :=
  match acts with
  | [] => []
  | TSubmit m :: rest => m :: submitted rest
  | TLog _ _ :: rest => submitted rest
  end.

(** The manager holds a recognizer. *)
Definition installed (s : Session) : bool :=
  match speech_recognizer s with Some _ => true | None => false end.

(** The credential is set, but to the empty string. *)
Definition empty_credential : World :=
  mk_world (fun name => if String.eqb name "api_key" then Some "" else Some "westeurope")
    Decoder.loads None None no_fault no_fault no_fault no_fault None.

(** The SDK builds the recognizer and then refuses to connect a callback to
    its [canceled] signal. *)
Definition connect_refused : World :=
  mk_world configured_env Decoder.loads None None
    (fun step => match step with
                 | ConnectCanceled => Some (RuntimeError "SPXERR_INVALID_HANDLE")
                 | _ => None
                 end)
    no_fault no_fault no_fault None.

(** A frame that ends the loop without an exception: a close frame or an
    error frame of the transport, or a JSON object that asks to close. *)
Definition ends_quietly (W : World) (i : Inbound) : bool :=
  match i with
  | Recv msg =>
      match frame_type msg with
      | CLOSE | ERROR => true
      | TEXT =>
          match json_loads W (frame_data msg) with
          | inr data => asks_close data
          | inl _ => false
          end
      | _ => false
      end
  | RecvRaises _ => false
  end.

(** An environment with the realtime endpoint and deployment and an empty
    voice choice, and nothing else. *)
Definition realtime_only (name : string) : option string :=
  if String.eqb name "AZURE_OPENAI_ENDPOINT" then Some "wss://example.openai.azure.com"
  else if String.eqb name "AZURE_OPENAI_REALTIME_DEPLOYMENT" then Some "gpt-4o-realtime"
  else if String.eqb name "AZURE_OPENAI_REALTIME_VOICE_CHOICE" then Some ""
  else None.

(** The digit [1], [n] times. *)
Fixpoint ones (n : nat) : string :=
  match n with
  | O => ""
  | S m => String "1"%char (ones m)
  end.

(** ** The application factory: what it reads from the environment

    [create_app] builds objects of classes that live outside this file.  The
    three blocks below are the values it computes for them from
    [os.environ], after the [.env] file has been loaded into it. *)

Inductive Credential : Type :=
| AzureKeyCredential (key : string)
| AzureDeveloperCliCredential (tenant_id : string) (process_timeout : nat)
| DefaultAzureCredential.

Definition KeyError (key : string) : exn := mk_exn "KeyError" ("'" ++ key ++ "'").

(** [os.environ[key]] *)
Definition environ_item (environ : string -> option string) (key : string)
    : exn + string :=
  match environ key with
  | Some v => inr v
  | None => inl (KeyError key)
  end.

(** [os.environ.get(key) or default] *)
Definition get_or (environ : string -> option string) (key default : string) : string :=
  if truthy (environ key) then from_env (environ key) else default.

(** The variable [credential] after the [if not llm_key or not search_key]
    block. *)
Definition credential (environ : string -> option string) : option Credential :=
  let llm_key := environ "AZURE_OPENAI_API_KEY" in
  let search_key := environ "AZURE_SEARCH_API_KEY" in
  if negb (truthy llm_key) || negb (truthy search_key) then
    let tenant_id := environ "AZURE_TENANT_ID" in
    if truthy tenant_id
    then Some (AzureDeveloperCliCredential (from_env tenant_id) 60)
    else Some DefaultAzureCredential
  else None.

Definition llm_credential (environ : string -> option string) : option Credential :=
  let llm_key := environ "AZURE_OPENAI_API_KEY" in
  if truthy llm_key then Some (AzureKeyCredential (from_env llm_key))
  else credential environ.

Definition search_credential (environ : string -> option string) : option Credential :=
  let search_key := environ "AZURE_SEARCH_API_KEY" in
  if truthy search_key then Some (AzureKeyCredential (from_env search_key))
  else credential environ.

(** The keyword arguments of [RTMiddleTier(...)]. *)
Record RTMiddleTierArgs : Type := mk_rtmt_args {
  rtmt_credentials : option Credential;
  rtmt_endpoint : string;
  rtmt_deployment : string;
  rtmt_voice_choice : string
}.

(** Calling the constructor of a credential: [construct] tells which
    exception it raises, if it raises (the identity library validates the
    tenant id it is given). *)
Definition build (construct : Credential -> option exn) (c : Credential)
    : exn + option Credential :=
  match construct c with
  | Some e => inl e
  | None => inr (Some c)
  end.

(** [create_app] from the choice of the credentials to the arguments of
    [RTMiddleTier(...)], statement by statement: the identity credential is
    built first, if a key is missing; then the key credentials; then the
    keyword arguments are evaluated from left to right.  (Between the two,
    [web.Application()] is called; it takes nothing from the environment.) *)
Definition rtmt_arguments (construct : Credential -> option exn)
    (environ : string -> option string) : exn + RTMiddleTierArgs :=
  let llm_key := environ "AZURE_OPENAI_API_KEY" in
  let search_key := environ "AZURE_SEARCH_API_KEY" in
  match
    (if negb (truthy llm_key) || negb (truthy search_key) then
       let tenant_id := environ "AZURE_TENANT_ID" in
       if truthy tenant_id
       then build construct (AzureDeveloperCliCredential (from_env tenant_id) 60)
       else build construct DefaultAzureCredential
     else inr None)
  with
  | inl e => inl e
  | inr credential =>
      match (if truthy llm_key
             then build construct (AzureKeyCredential (from_env llm_key))
             else inr credential) with
      | inl e => inl e
      | inr llm_credential =>
          match (if truthy search_key
                 then build construct (AzureKeyCredential (from_env search_key))
                 else inr credential) with
          | inl e => inl e
          | inr _ =>
              match environ_item environ "AZURE_OPENAI_ENDPOINT" with
              | inl e => inl e
              | inr endpoint =>
                  match environ_item environ "AZURE_OPENAI_REALTIME_DEPLOYMENT" with
                  | inl e => inl e
                  | inr deployment =>
                      inr (mk_rtmt_args llm_credential endpoint deployment
                             (get_or environ "AZURE_OPENAI_REALTIME_VOICE_CHOICE" "alloy"))
                  end
              end
          end
      end
  end.

(** An identity library that refuses the tenant id [bad tenant]. *)
Definition refuses_bad_tenant (c : Credential) : option exn :=
  match c with
  | AzureDeveloperCliCredential tenant_id _ =>
      if String.eqb tenant_id "bad tenant"
      then Some (ValueError "Invalid tenant ID provided.")
      else None
  | _ => None
  end.

(** An environment with no key, the tenant id [bad tenant], and no endpoint. *)
Definition bad_tenant_only (name : string) : option string :=
  if String.eqb name "AZURE_TENANT_ID" then Some "bad tenant" else None.

(** The keyword arguments of [attach_rag_tools(rtmt, ...)]. *)
Record RagToolsArgs : Type := mk_rag_args {
  rag_credentials : option Credential;
  search_endpoint : option string;
  search_index : option string;
  semantic_configuration : option string;
  identifier_field : string;
  content_field : string;
  embedding_field : string;
  title_field : string;
  use_vector_query : bool
}.

Definition rag_tools_arguments (environ : string -> option string) : RagToolsArgs :=
  mk_rag_args
    (search_credential environ)
    (environ "AZURE_SEARCH_ENDPOINT")
    (environ "AZURE_SEARCH_INDEX")
    (if truthy (environ "AZURE_SEARCH_SEMANTIC_CONFIGURATION")
     then environ "AZURE_SEARCH_SEMANTIC_CONFIGURATION" else None)
    (get_or environ "AZURE_SEARCH_IDENTIFIER_FIELD" "chunk_id")
    (get_or environ "AZURE_SEARCH_CONTENT_FIELD" "chunk")
    (get_or environ "AZURE_SEARCH_EMBEDDING_FIELD" "text_vector")
    (get_or environ "AZURE_SEARCH_TITLE_FIELD" "title")
    (String.eqb
       (match environ "AZURE_SEARCH_USE_VECTOR_QUERY" with
        | Some v => v
        | None => "true"
        end)
       "true").

(** * Properties *)

(** ** Traces *)

Lemma count_app (p : Effect -> bool) (a b : list Effect) :
  count p (a ++ b)%list = count p a + count p b.
Proof. unfold count. rewrite filter_app, length_app. reflexivity. Qed.

Lemma count_cons (p : Effect -> bool) (e : Effect) (a : list Effect) :
  count p (e :: a) = (if p e then 1 else 0) + count p a.
Proof. unfold count. simpl. destruct (p e); reflexivity. Qed.

Lemma count_nil (p : Effect -> bool) : count p [] = 0.
Proof. reflexivity. Qed.

Lemma sends_app (a b : list Effect) : sends (a ++ b)%list = (sends a ++ sends b)%list.
Proof.
  induction a as [|e a IH]; simpl; [reflexivity|].
  destruct e; simpl; rewrite ?IH; reflexivity.
Qed.

Lemma delivered_app (a b : list Effect) :
  delivered (a ++ b)%list = (delivered a ++ delivered b)%list.
Proof.
  induction a as [|e a IH]; simpl; [reflexivity|].
  destruct e as [| | |m [x|]| | |]; simpl; rewrite ?IH; reflexivity.
Qed.

Lemma active_app (a b : list Effect) : active (a ++ b)%list = (active a + active b)%Z.
Proof.
  induction a as [|e a IH]; simpl; [reflexivity|].
  destruct e as [| | | |[x|]|[x|]|]; rewrite ?IH; lia.
Qed.

Lemma count_loop_effects (p : Effect -> bool) (d : list Effect) :
  (forall e, loop_effect e = true -> p e = false) ->
  forallb loop_effect d = true -> count p d = 0.
Proof.
  intros Hp. induction d as [|e d IH]; simpl; intros H; [reflexivity|].
  apply andb_true_iff in H as [He Hd].
  rewrite count_cons, (Hp e He), (IH Hd). reflexivity.
Qed.

Lemma active_loop_effects (d : list Effect) :
  forallb loop_effect d = true -> active d = 0%Z.
Proof.
  induction d as [|e d IH]; simpl; intros H; [reflexivity|].
  apply andb_true_iff in H as [He Hd].
  destruct e; simpl in He; try discriminate; auto.
Qed.

(** ** The manager's methods, one equation each *)

Section Methods.

Variable W : World.

Lemma ws_send_json_eq (m : OutMsg) (s : Session) :
  ws_send_json W m s =
  (outcome_of (send_fault W (count is_send (trace s))),
   emit (ESend m (send_fault W (count is_send (trace s)))) s).
Proof.
  unfold ws_send_json, external.
  destruct (send_fault W (count is_send (trace s))); reflexivity.
Qed.

Lemma send_message_eq (m : OutMsg) (s : Session) :
  _send_message W m s = (Returns tt, after_send_message W m s).
Proof.
  unfold _send_message, try_except, after_send_message.
  rewrite ws_send_json_eq.
  destruct (send_fault W (count is_send (trace s))); reflexivity.
Qed.

Lemma count_after_call (p : Effect -> bool) (m : Method) (s : Session) :
  p (ECall m) = false ->
  count p (trace (emit (ECall m) s)) = count p (trace s).
Proof.
  intros H. unfold emit. cbn [trace].
  rewrite count_app, count_cons, H, count_nil. lia.
Qed.

Lemma start_recognition_eq (s : Session) :
  start_recognition W s = (Returns tt, after_start W s).
Proof.
  unfold start_recognition, after_start, idle, bind, modify, gets.
  cbn [speech_recognizer is_running emit].
  destruct (speech_recognizer s) as [r|]; [|reflexivity].
  destruct (is_running s); [reflexivity|].
  cbn [negb]. unfold try_except, bind, start_continuous_recognition, external.
  rewrite (count_after_call is_up_start start_recognition_m s eq_refl).
  destruct (start_fault W (count is_up_start (trace s))); reflexivity.
Qed.

Lemma stop_recognition_eq (s : Session) :
  stop_recognition W s = (Returns tt, after_stop W s).
Proof.
  unfold stop_recognition, after_stop, armed, bind, modify, gets.
  cbn [speech_recognizer is_running emit].
  destruct (speech_recognizer s) as [r|]; [|reflexivity].
  destruct (is_running s); [|reflexivity].
  unfold try_except, bind, stop_continuous_recognition, external.
  rewrite (count_after_call is_up_stop stop_recognition_m s eq_refl).
  destruct (stop_fault W (count is_up_stop (trace s))); reflexivity.
Qed.

End Methods.

(** ** Initialization *)

Section Initialization.

Variable W : World.

Lemma count_after_log (p : Effect -> bool) (l : Level) (text : string) (s : Session) :
  p (ELog l text) = false ->
  count p (trace (emit (ELog l text) s)) = count p (trace s).
Proof.
  intros H. unfold emit. cbn [trace].
  rewrite count_app, count_cons, H, count_nil. lia.
Qed.

Lemma init_failure_none :
  init_failure W = None ->
  misconfigured W = false /\ forall step, init_fault W step = None.
Proof.
  unfold init_failure. destruct (misconfigured W); [discriminate|].
  intros H. split; [reflexivity|].
  cbn [first_fault init_steps] in H.
  repeat match type of H with
         | match init_fault W ?x with _ => _ end = None =>
             let E := fresh "E" in
             destruct (init_fault W x) eqn:E; [discriminate|]
         end.
  intros []; assumption.
Qed.

(** A successful initialization installs the recognizer with its four
    callbacks and touches nothing else but the log. *)
Lemma initialize_success (s : Session) :
  init_failure W = None ->
  initialize_speech_recognizer W s =
  (Returns true,
   emit (ELog INFO "Azure Speech SDK initialized successfully")
     (set_recognizer (Some (wired_recognizer W)) s)).
Proof.
  intros H. apply init_failure_none in H as [Hc Hf].
  unfold initialize_speech_recognizer, try_except, bind, sdk.
  fold (misconfigured W). rewrite Hc, !Hf. reflexivity.
Qed.

(** A failed initialization logs the exception and writes one error frame;
    the exception of a failed write is the one that leaves the method. *)
Lemma initialize_failure (e : exn) (s : Session) :
  init_failure W = Some e ->
  exists r,
    initialize_speech_recognizer W s =
    (match send_fault W (count is_send (trace s)) with
     | None => Returns false
     | Some x => Raises x
     end,
     emit (ESend (init_error_frame e) (send_fault W (count is_send (trace s))))
       (emit (ELog ERROR_LEVEL ("Failed to initialize Azure Speech SDK: " ++ exn_str e))
          (set_recognizer r s))).
Proof.
  unfold init_failure, initialize_speech_recognizer, try_except, bind, sdk.
  fold (misconfigured W).
  set (msg := fun x => "Failed to initialize Azure Speech SDK: " ++ exn_str x).
  assert (Hsend : forall x s0,
    (let (o, s') := ws_send_json W (init_error_frame x) (emit (ELog ERROR_LEVEL (msg x)) s0) in
     match o with
     | Returns _ => ret false s'
     | Raises y => (Raises y, s')
     end) =
    (match send_fault W (count is_send (trace s0)) with
     | None => Returns false
     | Some y => Raises y
     end,
     emit (ESend (init_error_frame x) (send_fault W (count is_send (trace s0))))
       (emit (ELog ERROR_LEVEL (msg x)) s0))).
  { intros x s0. rewrite ws_send_json_eq.
    rewrite (count_after_log is_send ERROR_LEVEL (msg x) s0 eq_refl).
    destruct (send_fault W (count is_send (trace s0))); reflexivity. }
  destruct (misconfigured W).
  - intros [= <-]. exists (speech_recognizer s).
    cbn [raise log modify]. apply (Hsend _ s).
  - cbn [first_fault init_steps ret].
    destruct (init_fault W MkSpeechConfig) as [x|].
    { intros [= <-]. exists (speech_recognizer s). apply (Hsend _ s). }
    destruct (init_fault W MkSpeechRecognizer) as [x|].
    { intros [= <-]. exists (speech_recognizer s). apply (Hsend _ s). }
    cbn [modify ret on_recognizer].
    destruct (init_fault W ConnectRecognizing) as [x|].
    { intros [= <-]. eexists. apply (Hsend x (set_recognizer _ s)). }
    destruct (init_fault W ConnectRecognized) as [x|].
    { intros [= <-]. eexists. apply (Hsend x (set_recognizer _ s)). }
    destruct (init_fault W ConnectCanceled) as [x|].
    { intros [= <-]. eexists. apply (Hsend x (set_recognizer _ s)). }
    destruct (init_fault W ConnectSessionStopped) as [x|].
    { intros [= <-]. eexists. apply (Hsend x (set_recognizer _ s)). }
    discriminate.
Qed.

End Initialization.

(** ** The message loop *)

Lemma extends_quietly_refl (s : Session) : extends_quietly s s.
Proof.
  repeat split. exists []. rewrite app_nil_r. split; reflexivity.
Qed.

Lemma extends_quietly_trans (s1 s2 s3 : Session) :
  extends_quietly s1 s2 -> extends_quietly s2 s3 -> extends_quietly s1 s3.
Proof.
  intros (Hr & Hf & d & Ht & Hd) (Hr' & Hf' & d' & Ht' & Hd').
  repeat split; try congruence.
  exists (d ++ d')%list. split.
  - rewrite Ht', Ht, app_assoc. reflexivity.
  - rewrite forallb_app, Hd, Hd'. reflexivity.
Qed.

Lemma extends_quietly_emit (e : Effect) (s : Session) :
  loop_effect e = true -> extends_quietly s (emit e s).
Proof.
  intros H. repeat split. exists [e]. split; [reflexivity|].
  simpl. rewrite H. reflexivity.
Qed.

Lemma extends_quietly_set_inbox (fs : list Inbound) (s : Session) :
  extends_quietly s (set_inbox fs s).
Proof.
  repeat split. exists []. simpl. rewrite app_nil_r. split; reflexivity.
Qed.

Create HintDb relay.
#[local] Hint Resolve extends_quietly_refl extends_quietly_emit
  extends_quietly_set_inbox : relay.

Section Loop.

Variable W : World.

(** A text frame that does not decode: one log line, one write, and the
    loop goes on if the write returns. *)
Lemma loop_body_invalid_json (msg : WSMessage) (e : exn) (s : Session) :
  frame_type msg = TEXT ->
  json_loads W (frame_data msg) = inl e ->
  is_JSONDecodeError e = true ->
  loop_body W msg s =
  (match send_fault W (count is_send (trace s)) with
   | None => Returns Continue
   | Some x => Raises x
   end,
   emit (ESend (invalid_json_frame e) (send_fault W (count is_send (trace s))))
     (emit (ELog ERROR_LEVEL ("Failed to parse JSON message: " ++ exn_str e)) s)).
Proof.
  intros Ht Hj He. unfold loop_body. rewrite Ht.
  unfold try_except, bind. rewrite Hj. cbn [raise]. rewrite He.
  cbn [log modify]. rewrite ws_send_json_eq.
  rewrite (count_after_log is_send ERROR_LEVEL _ s eq_refl).
  destruct (send_fault W (count is_send (trace s))); reflexivity.
Qed.

(** A text frame that decodes to a dict: it is logged, and it ends the loop
    exactly when its [action] is [close]. *)
Lemma loop_body_object (msg : WSMessage) (pairs : list (string * json)) (s : Session) :
  frame_type msg = TEXT ->
  json_loads W (frame_data msg) = inr (JObj pairs) ->
  loop_body W msg s =
  if asks_close (JObj pairs) then
    (Returns Break,
     emit (ELog INFO "Client requested close")
       (emit (ELog INFO "Received message type: dict") s))
  else
    (Returns Continue, emit (ELog INFO "Received message type: dict") s).
Proof.
  intros Ht Hj. unfold loop_body. rewrite Ht.
  unfold try_except, bind. rewrite Hj. cbn.
  destruct (py_eq_str (dict_get pairs "action") "close"); reflexivity.
Qed.

(** A text frame that decodes to anything but a dict: it is logged and the
    lookup of [get] raises out of the body. *)
Lemma loop_body_not_object (msg : WSMessage) (data : json) (s : Session) :
  frame_type msg = TEXT ->
  json_loads W (frame_data msg) = inr data ->
  is_object data = false ->
  loop_body W msg s =
  (Raises (no_get data),
   emit (ELog INFO ("Received message type: " ++ type_name data)) s).
Proof.
  intros Ht Hj Ho. unfold loop_body. rewrite Ht.
  unfold try_except, bind. rewrite Hj.
  destruct data; try discriminate; reflexivity.
Qed.

Lemma loop_body_error_frame (msg : WSMessage) (s : Session) :
  frame_type msg = ERROR ->
  loop_body W msg s =
  (Returns Break,
   emit (ELog ERROR_LEVEL ("WebSocket connection closed with exception "
                           ++ str_opt exn_str (ws_exception W))) s).
Proof. intros Ht. unfold loop_body. rewrite Ht. reflexivity. Qed.

Lemma loop_body_close_frame (msg : WSMessage) (s : Session) :
  frame_type msg = CLOSE ->
  loop_body W msg s =
  (Returns Break, emit (ELog INFO "WebSocket connection closed by client") s).
Proof. intros Ht. unfold loop_body. rewrite Ht. reflexivity. Qed.

(** Whatever the message, the body only logs and writes. *)
Lemma loop_body_quiet (msg : WSMessage) (s s' : Session) (r : Outcome Ctl) :
  loop_body W msg s = (r, s') ->
  extends_quietly s s' /\ inbox s' = inbox s.
Proof.
  destruct (frame_type msg) eqn:Ht;
    try (unfold loop_body, bind, log, modify; rewrite Ht; intros [= _ <-]; split;
         [repeat apply extends_quietly_emit || apply extends_quietly_refl|];
         reflexivity).
  - destruct (json_loads W (frame_data msg)) as [e|data] eqn:Hj.
    + destruct (is_JSONDecodeError e) eqn:He.
      * rewrite (loop_body_invalid_json msg e s Ht Hj He). intros [= _ <-].
        split; [|reflexivity].
        eapply extends_quietly_trans; apply extends_quietly_emit; reflexivity.
      * unfold loop_body. rewrite Ht. unfold try_except, bind. rewrite Hj.
        cbn [raise]. rewrite He. intros [= _ <-]. split; auto with relay.
    + destruct (is_object data) eqn:Ho.
      * destruct data; try discriminate.
        rewrite (loop_body_object msg pairs s Ht Hj).
        destruct (asks_close (JObj pairs)); intros [= _ <-]; (split; [|reflexivity]).
        -- eapply extends_quietly_trans; apply extends_quietly_emit; reflexivity.
        -- apply extends_quietly_emit; reflexivity.
      * rewrite (loop_body_not_object msg data s Ht Hj Ho). intros [= _ <-].
        split; [|reflexivity]. apply extends_quietly_emit; reflexivity.
Qed.

(** One turn of [async for]. *)
Lemma async_for_cons (i : Inbound) (rest : list Inbound) (s : Session) :
  async_for W (i :: rest) s =
  let s1 := emit (ERecv i) (set_inbox rest s) in
  match i with
  | RecvRaises e => (Raises e, s1)
  | Recv msg =>
      match loop_body W msg s1 with
      | (Returns Continue, s2) => async_for W rest s2
      | (Returns Break, s2) => (Returns tt, s2)
      | (Raises e, s2) => (Raises e, s2)
      end
  end.
Proof.
  cbn [async_for]. unfold bind, modify. destruct i as [msg|e]; [|reflexivity].
  cbn zeta. destruct (loop_body W msg _) as [[[|]|e] s2]; reflexivity.
Qed.

(** The whole loop only receives, logs and writes. *)
Lemma async_for_quiet (frames : list Inbound) :
  forall (s s' : Session) (r : Outcome unit),
    async_for W frames s = (r, s') -> extends_quietly s s'.
Proof.
  induction frames as [|i rest IH]; intros s s' r.
  - intros [= _ <-]. apply extends_quietly_refl.
  - rewrite async_for_cons. cbn zeta.
    assert (H1 : extends_quietly s (emit (ERecv i) (set_inbox rest s))).
    { eapply extends_quietly_trans;
        [apply extends_quietly_set_inbox | apply extends_quietly_emit; reflexivity]. }
    destruct i as [msg|e].
    + destruct (loop_body W msg _) as [r2 s2] eqn:Hb.
      apply loop_body_quiet in Hb as [Hq _].
      destruct r2 as [[|]|e].
      * intros H. apply IH in H.
        eapply extends_quietly_trans; [|exact H].
        eapply extends_quietly_trans; eassumption.
      * intros [= _ <-]. eapply extends_quietly_trans; eassumption.
      * intros [= _ <-]. eapply extends_quietly_trans; eassumption.
    + intros [= _ <-]. exact H1.
Qed.

End Loop.

(** ** The route *)

Section Route.

Variable W : World.

Lemma serve_eq (s : Session) :
  serve W s =
  match message_loop W s with
  | (Returns _, s1) => (Returns tt, closed (after_stop W s1))
  | (Raises e, s1) =>
      (outcome_of (send_fault W (count is_send (trace s1))),
       closed (after_stop W (report W e s1)))
  end.
Proof.
  unfold serve, try_finally, try_except, bind.
  destruct (message_loop W s) as [[[]|e] s1].
  - rewrite stop_recognition_eq. reflexivity.
  - cbn [any_Exception log modify]. rewrite ws_send_json_eq.
    rewrite (count_after_log is_send ERROR_LEVEL _ s1 eq_refl).
    rewrite stop_recognition_eq. unfold report.
    destruct (send_fault W (count is_send (trace s1))); reflexivity.
Qed.

Lemma run_initialized (frames : list Inbound) :
  prepare_fault W = None -> init_failure W = None ->
  run W frames = serve W (ready W frames).
Proof.
  intros Hp Hi. unfold run, handle_transcribe_ws, bind, external.
  rewrite Hp. cbn [log modify]. fold (connected W frames).
  rewrite (initialize_success W _ Hi). cbn [negb].
  rewrite start_recognition_eq. reflexivity.
Qed.

Lemma run_uninitialized (frames : list Inbound) (e : exn) :
  prepare_fault W = None -> init_failure W = Some e ->
  exists r,
    run W frames =
    (outcome_of (send_fault W 0),
     emit (ESend (init_error_frame e) (send_fault W 0))
       (emit (ELog ERROR_LEVEL ("Failed to initialize Azure Speech SDK: " ++ exn_str e))
          (set_recognizer r (connected W frames)))).
Proof.
  intros Hp Hi. unfold run, handle_transcribe_ws, bind, external.
  rewrite Hp. cbn [log modify]. fold (connected W frames).
  destruct (initialize_failure W e (connected W frames) Hi) as [r ->].
  exists r. change (count is_send (trace (connected W frames))) with 0.
  destruct (send_fault W 0); reflexivity.
Qed.

Lemma after_stop_trace (s : Session) :
  trace (after_stop W s) = (trace s ++ ECall stop_recognition_m :: stop_effects W s)%list.
Proof.
  unfold after_stop, stop_effects. destruct (armed s).
  - destruct (stop_fault W (count is_up_stop (trace s))); cbn [emit set_running trace];
      rewrite <- !app_assoc; reflexivity.
  - reflexivity.
Qed.

Lemma after_stop_running (s : Session) :
  is_running (after_stop W s) =
  if armed s then raised (stop_fault W (count is_up_stop (trace s))) else is_running s.
Proof.
  unfold after_stop, armed.
  destruct (speech_recognizer s); [|reflexivity].
  destruct (is_running s) eqn:E; [|exact E].
  destruct (stop_fault W (count is_up_stop (trace s))); [exact E|reflexivity].
Qed.

Lemma after_stop_recognizer (s : Session) :
  speech_recognizer (after_stop W s) = speech_recognizer s.
Proof.
  unfold after_stop. destruct (armed s); [|reflexivity].
  destruct (stop_fault W (count is_up_stop (trace s))); reflexivity.
Qed.

Lemma stop_effects_counts (s : Session) :
  count is_recv (stop_effects W s) = 0 /\
  count is_send (stop_effects W s) = 0 /\
  count (is_call stop_recognition_m) (stop_effects W s) = 0 /\
  count is_up_stop (stop_effects W s) = (if armed s then 1 else 0).
Proof.
  unfold stop_effects. destruct (armed s); [|repeat split].
  destruct (stop_fault W (count is_up_stop (trace s))); repeat split.
Qed.

Lemma ready_recognizer (frames : list Inbound) :
  speech_recognizer (ready W frames) = Some (wired_recognizer W).
Proof.
  unfold ready, after_start. cbn.
  destruct (start_fault W 0); reflexivity.
Qed.

Lemma ready_running (frames : list Inbound) :
  is_running (ready W frames) = negb (raised (start_fault W 0)).
Proof.
  unfold ready, after_start. cbn.
  destruct (start_fault W 0); reflexivity.
Qed.

Lemma ready_inbox (frames : list Inbound) : inbox (ready W frames) = frames.
Proof.
  unfold ready, after_start. cbn.
  destruct (start_fault W 0); reflexivity.
Qed.

Lemma ready_counts (frames : list Inbound) :
  count (is_call stop_recognition_m) (trace (ready W frames)) = 0 /\
  count is_up_stop (trace (ready W frames)) = 0 /\
  count is_send (trace (ready W frames)) = 0 /\
  count is_recv (trace (ready W frames)) = 0 /\
  count is_up_start (trace (ready W frames)) = 1 /\
  count (is_call start_recognition_m) (trace (ready W frames)) = 1.
Proof.
  unfold ready, after_start. cbn.
  destruct (start_fault W 0); repeat split.
Qed.

End Route.

(** ** Leaving the loop *)

Section Teardown.

Variable W : World.

Lemma report_quiet (e : exn) (s : Session) : extends_quietly s (report W e s).
Proof.
  unfold report.
  eapply extends_quietly_trans; apply extends_quietly_emit; reflexivity.
Qed.

(** Where the route ends after an initialization that succeeded: the loop
    and, if it raised, the [except] clause have run quietly from [ready],
    and then the [finally] clause. *)
Lemma run_ends_in_teardown (frames : list Inbound) :
  prepare_fault W = None -> init_failure W = None ->
  exists s0,
    extends_quietly (ready W frames) s0 /\
    snd (run W frames) = closed (after_stop W s0).
Proof.
  intros Hp Hi. rewrite (run_initialized W frames Hp Hi), serve_eq.
  unfold message_loop.
  destruct (async_for W (inbox (ready W frames)) (ready W frames))
    as [[[]|e] s1] eqn:Hl; apply async_for_quiet in Hl.
  - exists s1. split; [assumption|reflexivity].
  - exists (report W e s1). split; [|reflexivity].
    eapply extends_quietly_trans; [eassumption|apply report_quiet].
Qed.

Lemma teardown_facts (frames : list Inbound) (s0 : Session) :
  extends_quietly (ready W frames) s0 ->
  let s := closed (after_stop W s0) in
  let started := negb (raised (start_fault W 0)) in
  count (is_call stop_recognition_m) (trace s) = 1 /\
  (exists before after,
      trace s = (before ++ ECall stop_recognition_m :: after)%list /\
      count (is_call stop_recognition_m) before = 0 /\
      count is_recv after = 0 /\ count is_send after = 0) /\
  count is_up_stop (trace s) = (if started then 1 else 0) /\
  is_running s = started && raised (stop_fault W 0).
Proof.
  intros (Hr & Hf & d & Ht & Hd) s started.
  destruct (ready_counts W frames) as (C1 & C2 & _).
  assert (Hcall : count (is_call stop_recognition_m) (trace s0) = 0).
  { rewrite Ht, count_app, C1.
    rewrite (count_loop_effects _ d); [reflexivity| |assumption].
    intros []; simpl; congruence. }
  assert (Hup : count is_up_stop (trace s0) = 0).
  { rewrite Ht, count_app, C2.
    rewrite (count_loop_effects _ d); [reflexivity| |assumption].
    intros []; simpl; congruence. }
  assert (Harmed : armed s0 = started).
  { unfold armed. rewrite Hr, Hf, ready_recognizer, ready_running. reflexivity. }
  destruct (stop_effects_counts W s0) as (E1 & E2 & E3 & E4).
  assert (Htr : trace s =
    (trace s0 ++ ECall stop_recognition_m
       :: (stop_effects W s0 ++ [ELog INFO "WebSocket /transcribe/ws closed"]))%list).
  { unfold s, closed, emit. cbn [trace]. rewrite after_stop_trace.
    rewrite <- app_assoc. reflexivity. }
  repeat split.
  - rewrite Htr, count_app, count_cons, count_app, Hcall, E3. reflexivity.
  - exists (trace s0), (stop_effects W s0 ++ [ELog INFO "WebSocket /transcribe/ws closed"])%list.
    repeat split; [exact Htr|exact Hcall| |].
    + rewrite count_app, E1. reflexivity.
    + rewrite count_app, E2. reflexivity.
  - rewrite Htr, count_app, count_cons, count_app, Hup, E4, Harmed.
    destruct started; reflexivity.
  - unfold s, closed, emit. cbn [is_running].
    rewrite after_stop_running, Harmed, Hup, Hf, ready_running.
    fold started. destruct started; reflexivity.
Qed.

End Teardown.

(** C3. After an initialization that succeeded, whatever the socket then
    delivers (a close request, a close frame, an error frame, a frame whose
    handling raises, a receive that raises, or the end of the stream) and
    however the external calls answer, [stop_recognition] is entered exactly
    once, and after the loop: every receive and every socket write precedes
    it.  It stops the engine once when recognition had started and not at
    all when the start had failed, and the flag is left set only if that one
    upstream stop raised. *)
Theorem stop_recognition_once_on_every_exit (W : World) (frames : list Inbound) :
  prepare_fault W = None -> init_failure W = None ->
  let s := snd (run W frames) in
  let started := negb (raised (start_fault W 0)) in
  count (is_call stop_recognition_m) (trace s) = 1 /\
  (exists before after,
      trace s = (before ++ ECall stop_recognition_m :: after)%list /\
      count (is_call stop_recognition_m) before = 0 /\
      count is_recv after = 0 /\ count is_send after = 0) /\
  count is_up_stop (trace s) = (if started then 1 else 0) /\
  is_running s = started && raised (stop_fault W 0).
Proof.
  intros Hp Hi.
  destruct (run_ends_in_teardown W frames Hp Hi) as (s0 & Hq & ->).
  exact (teardown_facts W frames s0 Hq).
Qed.

Lemma stop_recognition_once_on_every_exit_witness :
  prepare_fault flaky_engine = None /\ init_failure flaky_engine = None /\
  count (is_call stop_recognition_m)
    (trace (snd (run flaky_engine [text_frame "{}"; error_frame]))) = 1.
Proof.
  split; [reflexivity|]. split; [reflexivity|].
  exact (proj1 (stop_recognition_once_on_every_exit flaky_engine
                  [text_frame "{}"; error_frame] eq_refl eq_refl)).
Defined.

(** Each way out of the loop, in a world where every call succeeds: a close
    request, a close frame, an error frame, a frame whose handling raises, a
    receive that raises, and the end of the stream. *)
Example each_exit_stops_once :
  let stops frames :=
    count (is_call stop_recognition_m) (trace (snd (run calm frames))) in
  stops [text_frame close_request; text_frame "{}"] = 1 /\
  stops [close_frame; text_frame "{}"] = 1 /\
  stops [error_frame; text_frame "{}"] = 1 /\
  stops [text_frame "[1]"; text_frame "{}"] = 1 /\
  stops [RecvRaises (RuntimeError "Concurrent call to receive() is not allowed")] = 1 /\
  stops [] = 1.
Proof. vm_compute. repeat split. Qed.

(** ** A failed initialization *)

(** C1, as the code has it.  When initialization fails, for a missing
    credential or region or for an SDK call that raises, the route logs the
    exception, writes exactly one error frame that carries its text, and
    returns at once: recognition is not started, no frame is taken from the
    socket, and [stop_recognition] is not entered.  What leaves the route is
    the outcome of that one write. *)
Theorem failed_initialization_returns_at_once
    (W : World) (frames : list Inbound) (e : exn) :
  prepare_fault W = None -> init_failure W = Some e ->
  let s := snd (run W frames) in
  sends (trace s) = [init_error_frame e] /\
  count (is_call start_recognition_m) (trace s) = 0 /\
  count is_up_start (trace s) = 0 /\
  is_running s = false /\
  inbox s = frames /\
  count is_recv (trace s) = 0 /\
  count (is_call stop_recognition_m) (trace s) = 0 /\
  fst (run W frames) = outcome_of (send_fault W 0).
Proof.
  intros Hp Hi.
  destruct (run_uninitialized W frames e Hp Hi) as [r ->].
  cbn. repeat split.
Qed.

Lemma failed_initialization_returns_at_once_witness :
  prepare_fault unconfigured = None /\
  init_failure unconfigured
  = Some (ValueError "Please set api_key and region in your .env file") /\
  inbox (snd (run unconfigured [text_frame close_request]))
  = [text_frame close_request].
Proof.
  split; [reflexivity|]. split; [reflexivity|].
  exact (proj1 (proj2 (proj2 (proj2 (proj2
    (failed_initialization_returns_at_once unconfigured [text_frame close_request]
       _ eq_refl eq_refl)))))).
Defined.

(** C1, as stated, fails.  Without configuration, a malformed frame and a
    close request wait on the socket: neither is received, the malformed
    frame gets no reply and the close request does not reach
    [stop_recognition]; the only frame written is the initialization error.
    With configuration the same two frames are both received, the first is
    answered and the second ends the loop. *)
Lemma failed_initialization_skips_the_loop :
  let frames := [text_frame "not json"; text_frame close_request] in
  let failed := snd (run unconfigured frames) in
  let served := snd (run calm frames) in
  init_failure unconfigured <> None /\
  inbox failed = frames /\
  count is_recv (trace failed) = 0 /\
  count (is_call stop_recognition_m) (trace failed) = 0 /\
  sends (trace failed)
  = [init_error_frame (ValueError "Please set api_key and region in your .env file")] /\
  inbox served = [] /\
  count is_recv (trace served) = 2 /\
  count (is_call stop_recognition_m) (trace served) = 1 /\
  sends (trace served)
  = [mk_msg "error" "Invalid JSON: Expecting value: line 1 column 1 (char 0)"].
Proof.
  vm_compute. repeat split. discriminate.
Qed.

(** ** Frames that decode *)

(** JSON objects that do not ask to close are logged and passed over: the
    loop is at the next frame, with nothing written and the manager as it
    was. *)
Lemma objects_are_passed_over (W : World) (msgs : list WSMessage) :
  forall (rest : list Inbound) (s : Session),
    forallb (passed_over W) msgs = true ->
    async_for W (map Recv msgs ++ rest) s = async_for W rest (skim msgs rest s).
Proof.
  induction msgs as [|m ms IH]; intros rest s H; [reflexivity|].
  cbn [forallb] in H. apply andb_true_iff in H as [Hm Hms].
  cbn [map app]. rewrite async_for_cons. cbn zeta.
  unfold passed_over in Hm.
  destruct (frame_type m) eqn:Ht; try discriminate.
  destruct (json_loads W (frame_data m)) as [e|[]] eqn:Hj; try discriminate.
  rewrite (loop_body_object W m pairs _ Ht Hj).
  apply negb_true_iff in Hm. rewrite Hm.
  rewrite (IH rest _ Hms). reflexivity.
Qed.

Lemma skim_quiet (msgs : list WSMessage) :
  forall (rest : list Inbound) (s : Session),
    extends_quietly s (skim msgs rest s) /\
    sends (trace (skim msgs rest s)) = sends (trace s).
Proof.
  induction msgs as [|m ms IH]; intros rest s.
  - split; [apply extends_quietly_refl|reflexivity].
  - cbn [skim].
    destruct (IH rest (emit (ELog INFO "Received message type: dict")
                         (emit (ERecv (Recv m)) (set_inbox (map Recv ms ++ rest) s))))
      as [Hq Hs].
    split.
    + eapply extends_quietly_trans; [|exact Hq].
      eapply extends_quietly_trans; [apply extends_quietly_set_inbox|].
      eapply extends_quietly_trans; apply extends_quietly_emit; reflexivity.
    + rewrite Hs. cbn [emit set_inbox trace]. rewrite !sends_app. cbn.
      rewrite !app_nil_r. reflexivity.
Qed.

(** A text frame that decodes to anything but a dict ends the loop with the
    attribute error of [.get]; the frames behind it stay on the socket. *)
Lemma non_object_frame_raises
    (W : World) (msg : WSMessage) (data : json) (rest : list Inbound) (s : Session) :
  frame_type msg = TEXT ->
  json_loads W (frame_data msg) = inr data ->
  is_object data = false ->
  async_for W (Recv msg :: rest) s =
  (Raises (no_get data),
   emit (ELog INFO ("Received message type: " ++ type_name data))
     (emit (ERecv (Recv msg)) (set_inbox rest s))).
Proof.
  intros Ht Hj Ho. rewrite async_for_cons. cbn zeta.
  rewrite (loop_body_not_object W msg data _ Ht Hj Ho). reflexivity.
Qed.

(** C2, where the code departs from it.  The text [[1]] is well-formed JSON
    and has no [action]; the frame that carries it ends the session.
    [data.get] raises on the list, the outer handler writes a server error,
    [stop_recognition] runs, and the frame behind it is never received. *)
Theorem array_frame_ends_the_session :
  let frames := [text_frame "[1]"; text_frame "{}"] in
  let s := snd (run calm frames) in
  json_loads calm "[1]" = inr (JArr [JInt 1]) /\
  sends (trace s)
  = [mk_msg "error" "Server error: 'list' object has no attribute 'get'"] /\
  count (is_call stop_recognition_m) (trace s) = 1 /\
  count is_up_stop (trace s) = 1 /\
  is_running s = false /\
  inbox s = [text_frame "{}"].
Proof.
  vm_compute. repeat split.
Qed.

(** ** Exceptions that leave the loop *)

Lemma stop_effects_quiet (W : World) (s s' : Session) :
  extends_quietly s s' -> stop_effects W s' = stop_effects W s.
Proof.
  intros (Hr & Hf & d & Ht & Hd). unfold stop_effects, armed.
  rewrite Hr, Hf, Ht, count_app.
  rewrite (count_loop_effects is_up_stop d); [|intros []; simpl; congruence|assumption].
  rewrite Nat.add_0_r. reflexivity.
Qed.

Lemma sends_stop_effects (W : World) (s : Session) : sends (stop_effects W s) = [].
Proof.
  unfold stop_effects. destruct (armed s); [|reflexivity].
  destruct (stop_fault W _); reflexivity.
Qed.

Lemma closed_trace (s : Session) :
  trace (closed s) = (trace s ++ [ELog INFO "WebSocket /transcribe/ws closed"])%list.
Proof. reflexivity. Qed.

Lemma report_trace (W : World) (e : exn) (s : Session) :
  trace (report W e s) =
  (trace s ++ [ELog ERROR_LEVEL ("Error in transcription WebSocket: " ++ exn_str e);
               ESend (server_error_frame e) (send_fault W (count is_send (trace s)))])%list.
Proof. unfold report, emit. cbn [trace]. rewrite <- app_assoc. reflexivity. Qed.

(** C5. An exception [e] that leaves the loop (the attribute error of
    [.get] on a value that is not a dict, an exception of the receive, any
    exception the inner handler does not take) is caught by the outer
    handler.  From there the route logs it, writes the one frame
    [{type: error, text: Server error: <str(e)>}], and only then enters
    [stop_recognition] and finishes the cleanup; [e] itself does not leave
    the route. *)
Theorem loop_exception_reported_before_cleanup
    (W : World) (s s1 : Session) (e : exn) :
  message_loop W s = (Raises e, s1) ->
  let written := send_fault W (count is_send (trace s1)) in
  fst (serve W s) = outcome_of written /\
  trace (snd (serve W s)) =
  (trace s1
   ++ [ELog ERROR_LEVEL ("Error in transcription WebSocket: " ++ exn_str e);
       ESend (mk_msg "error" ("Server error: " ++ exn_str e)) written;
       ECall stop_recognition_m]
   ++ stop_effects W s1
   ++ [ELog INFO "WebSocket /transcribe/ws closed"])%list.
Proof.
  intros Hl written. rewrite serve_eq, Hl. split; [reflexivity|].
  unfold closed, emit at 1. cbn [snd trace].
  rewrite after_stop_trace, (stop_effects_quiet W s1 _ (report_quiet W e s1)).
  unfold report, emit. cbn [trace]. fold written.
  rewrite <- !app_assoc. reflexivity.
Qed.

Lemma loop_exception_reported_before_cleanup_witness :
  message_loop calm (ready calm [text_frame "[1]"])
  = (Raises (AttributeError "'list' object has no attribute 'get'"),
     emit (ELog INFO "Received message type: list")
       (emit (ERecv (text_frame "[1]")) (set_inbox [] (ready calm [text_frame "[1]"])))) /\
  fst (serve calm (ready calm [text_frame "[1]"])) = Returns tt.
Proof.
  split; [reflexivity|].
  refine (proj1 (loop_exception_reported_before_cleanup calm
                   (ready calm [text_frame "[1]"]) _ _ _)).
  reflexivity.
Defined.

(** ** A transport error *)

(** C4, as the code has it.  Of the failures that end a session, two are
    told to the client: a failed initialization writes its one error frame,
    and an exception that leaves the loop writes one server-error frame
    before the cleanup.  An error frame of the transport is not: the loop
    logs the socket's exception and breaks, the cleanup runs, and nothing is
    written. *)
Theorem failures_that_end_a_session (W : World) :
  (forall frames e,
      prepare_fault W = None -> init_failure W = Some e ->
      sends (trace (snd (run W frames))) = [init_error_frame e]) /\
  (forall s s1 e,
      message_loop W s = (Raises e, s1) ->
      sends (trace (snd (serve W s))) = (sends (trace s1) ++ [server_error_frame e])%list) /\
  (forall s msg rest,
      inbox s = Recv msg :: rest -> frame_type msg = ERROR ->
      fst (serve W s) = Returns tt /\
      sends (trace (snd (serve W s))) = sends (trace s) /\
      inbox (snd (serve W s)) = rest /\
      trace (snd (serve W s)) =
      (trace s
       ++ [ERecv (Recv msg);
           ELog ERROR_LEVEL ("WebSocket connection closed with exception "
                             ++ str_opt exn_str (ws_exception W));
           ECall stop_recognition_m]
       ++ stop_effects W s
       ++ [ELog INFO "WebSocket /transcribe/ws closed"])%list).
Proof.
  split; [|split].
  - intros frames e Hp Hi.
    destruct (run_uninitialized W frames e Hp Hi) as [r ->]. reflexivity.
  - intros s s1 e Hl. rewrite serve_eq, Hl. cbn [snd].
    rewrite closed_trace, after_stop_trace, report_trace.
    rewrite !sends_app. cbn [sends]. rewrite sends_stop_effects.
    rewrite !app_nil_r. reflexivity.
  - intros s msg rest Hin Ht.
    assert (Hl : message_loop W s =
                 (Returns tt,
                  emit (ELog ERROR_LEVEL ("WebSocket connection closed with exception "
                                          ++ str_opt exn_str (ws_exception W)))
                    (emit (ERecv (Recv msg)) (set_inbox rest s)))).
    { unfold message_loop. rewrite Hin, async_for_cons. cbn zeta.
      rewrite (loop_body_error_frame W msg _ Ht). reflexivity. }
    rewrite serve_eq, Hl. cbn [fst snd].
    set (s1 := emit _ (emit (ERecv (Recv msg)) (set_inbox rest s))).
    assert (Hq : extends_quietly s s1).
    { eapply extends_quietly_trans; [apply extends_quietly_set_inbox|].
      eapply extends_quietly_trans; apply extends_quietly_emit; reflexivity. }
    assert (Htr : trace (closed (after_stop W s1)) =
      (trace s
       ++ [ERecv (Recv msg);
           ELog ERROR_LEVEL ("WebSocket connection closed with exception "
                             ++ str_opt exn_str (ws_exception W));
           ECall stop_recognition_m]
       ++ stop_effects W s
       ++ [ELog INFO "WebSocket /transcribe/ws closed"])%list).
    { unfold closed, emit at 1. cbn [trace].
      rewrite after_stop_trace, (stop_effects_quiet W s s1 Hq).
      unfold s1, emit, set_inbox. cbn [trace].
      rewrite <- !app_assoc. reflexivity. }
    repeat split.
    + rewrite Htr, !sends_app. cbn [sends].
      rewrite sends_stop_effects, !app_nil_r. reflexivity.
    + unfold closed, after_stop. destruct (armed s1); [|reflexivity].
      destruct (stop_fault W _); reflexivity.
    + exact Htr.
Qed.

Lemma failures_that_end_a_session_witness :
  inbox (ready calm [error_frame]) = [error_frame] /\
  frame_type (mk_frame ERROR "") = ERROR /\
  sends (trace (snd (serve calm (ready calm [error_frame])))) = [].
Proof.
  split; [reflexivity|]. split; [reflexivity|].
  exact (proj1 (proj2 (proj2 (proj2 (failures_that_end_a_session calm))
                         (ready calm [error_frame]) (mk_frame ERROR "") []
                         eq_refl eq_refl))).
Defined.

(** C4, as stated, fails.  The transport delivers an error frame: the
    session is torn down ([stop_recognition] runs, the engine is stopped,
    the route returns) and not one frame was written to the client. *)
Lemma transport_error_ends_session_silently :
  let r := run calm [error_frame] in
  fst r = Returns tt /\
  count (is_call stop_recognition_m) (trace (snd r)) = 1 /\
  count is_up_stop (trace (snd r)) = 1 /\
  is_running (snd r) = false /\
  sends (trace (snd r)) = [] /\
  delivered (trace (snd r)) = [].
Proof.
  vm_compute. repeat split.
Qed.

(** ** Text that is not JSON *)

(** C8, as the code has it.  For a text frame on which [json.loads] raises
    a [JSONDecodeError], and a socket that accepts the reply: the loop logs
    the failure, writes exactly one error frame whose text is
    [Invalid JSON: ] followed by the description of the parse failure, leaves
    the manager as it was (no upstream call, no [stop_recognition]), and is
    at the next frame. *)
Theorem invalid_json_is_answered_and_loop_goes_on
    (W : World) (msg : WSMessage) (e : exn) (rest : list Inbound) (s : Session) :
  frame_type msg = TEXT ->
  json_loads W (frame_data msg) = inl e ->
  is_JSONDecodeError e = true ->
  send_fault W (count is_send (trace s)) = None ->
  let s' :=
    emit (ESend (mk_msg "error" ("Invalid JSON: " ++ exn_str e)) None)
      (emit (ELog ERROR_LEVEL ("Failed to parse JSON message: " ++ exn_str e))
         (emit (ERecv (Recv msg)) (set_inbox rest s))) in
  async_for W (Recv msg :: rest) s = async_for W rest s' /\
  speech_recognizer s' = speech_recognizer s /\
  is_running s' = is_running s /\
  inbox s' = rest /\
  sends (trace s') = (sends (trace s) ++ [mk_msg "error" ("Invalid JSON: " ++ exn_str e)])%list /\
  count is_up_start (trace s') = count is_up_start (trace s) /\
  count is_up_stop (trace s') = count is_up_stop (trace s) /\
  count (is_call stop_recognition_m) (trace s') = count (is_call stop_recognition_m) (trace s).
Proof.
  intros Ht Hj He Hw s'. split.
  - rewrite async_for_cons. cbn zeta.
    rewrite (loop_body_invalid_json W msg e _ Ht Hj He).
    assert (Hc : count is_send (trace (emit (ERecv (Recv msg)) (set_inbox rest s)))
                 = count is_send (trace s)).
    { unfold emit, set_inbox. cbn [trace].
      rewrite count_app, count_cons, count_nil. cbn. lia. }
    rewrite Hc, Hw. reflexivity.
  - unfold s', emit, set_inbox. cbn [speech_recognizer is_running inbox trace].
    rewrite !sends_app, !count_app, !count_cons, !count_nil. cbn.
    rewrite !app_nil_r. repeat split; lia.
Qed.

Lemma invalid_json_is_answered_and_loop_goes_on_witness :
  frame_type (mk_frame TEXT "not json") = TEXT /\
  json_loads calm "not json"
  = inl (JSONDecodeError "Expecting value: line 1 column 1 (char 0)") /\
  send_fault calm 0 = None /\
  async_for calm [text_frame "not json"; text_frame close_request] (new_session [])
  = async_for calm [text_frame close_request]
      (emit (ESend (mk_msg "error" "Invalid JSON: Expecting value: line 1 column 1 (char 0)") None)
         (emit (ELog ERROR_LEVEL
                  "Failed to parse JSON message: Expecting value: line 1 column 1 (char 0)")
            (emit (ERecv (text_frame "not json"))
               (set_inbox [text_frame close_request] (new_session []))))).
Proof.
  split; [reflexivity|]. split; [reflexivity|]. split; [reflexivity|].
  exact (proj1 (invalid_json_is_answered_and_loop_goes_on calm
                  (mk_frame TEXT "not json")
                  (JSONDecodeError "Expecting value: line 1 column 1 (char 0)")
                  [text_frame close_request] (new_session [])
                  eq_refl eq_refl eq_refl eq_refl)).
Defined.

(** C8, as stated, fails.  The client sent text that is not JSON and is
    gone, so the reply cannot be written.  The exception of that write
    leaves the loop: a second error frame is attempted by the outer handler,
    the cleanup runs, and the close request that was waiting behind the bad
    frame is never received. *)
Lemma invalid_json_ends_loop_when_reply_fails :
  let frames := [text_frame "not json"; text_frame close_request] in
  let r := run client_gone frames in
  json_loads client_gone "not json"
  = inl (JSONDecodeError "Expecting value: line 1 column 1 (char 0)") /\
  sends (trace (snd r))
  = [mk_msg "error" "Invalid JSON: Expecting value: line 1 column 1 (char 0)";
     mk_msg "error" "Server error: Cannot write to closing transport"] /\
  delivered (trace (snd r)) = [] /\
  count is_recv (trace (snd r)) = 1 /\
  inbox (snd r) = [text_frame close_request] /\
  count (is_call stop_recognition_m) (trace (snd r)) = 1 /\
  is_running (snd r) = false /\
  fst r = Raises ConnectionResetError.
Proof.
  vm_compute. repeat split.
Qed.

(** Text on which [json.loads] raises anything but a [JSONDecodeError] gets
    no reply from the inner handler: the exception leaves the loop at once,
    with the frames behind it unread. *)
Lemma other_decoder_exception_leaves_the_loop
    (W : World) (msg : WSMessage) (e : exn) (rest : list Inbound) (s : Session) :
  frame_type msg = TEXT ->
  json_loads W (frame_data msg) = inl e ->
  is_JSONDecodeError e = false ->
  async_for W (Recv msg :: rest) s =
  (Raises e, emit (ERecv (Recv msg)) (set_inbox rest s)).
Proof.
  intros Ht Hj He. rewrite async_for_cons. cbn zeta.
  unfold loop_body. rewrite Ht. unfold try_except, bind. rewrite Hj.
  cbn [raise]. rewrite He. reflexivity.
Qed.

(** An integer literal of 4301 digits followed by stray text is not valid
    JSON, but what [json.loads] raises on it is the [ValueError] of the
    conversion, not a [JSONDecodeError].  The socket accepts every write, and
    still the session ends: the frame is answered with a server error, the
    cleanup runs, and the close request behind it is never received. *)
Example over_long_integer_ends_the_session :
  let frames := [text_frame (ones 4301 ++ " x"); text_frame close_request] in
  let r := run calm frames in
  fst r = Returns tt /\
  delivered (trace (snd r))
  = [mk_msg "error"
       "Server error: Exceeds the limit (4300 digits) for integer string conversion: value has 4301 digits; use sys.set_int_max_str_digits() to increase the limit"] /\
  count is_recv (trace (snd r)) = 1 /\
  inbox (snd r) = [text_frame close_request] /\
  count (is_call stop_recognition_m) (trace (snd r)) = 1.
Proof.
  vm_compute. repeat split.
Qed.

(** ** Starting and stopping *)

Lemma after_start_flag (W : World) (s : Session) :
  flag_is_exact s -> flag_is_exact (after_start W s).
Proof.
  unfold flag_is_exact, after_start. intros H.
  destruct (idle s) eqn:Hi.
  - assert (Hf : is_running s = false).
    { unfold idle in Hi. destruct (speech_recognizer s); [|discriminate].
      destruct (is_running s); [discriminate|reflexivity]. }
    rewrite Hf in H.
    destruct (start_fault W _); cbn [emit set_running trace is_running];
      rewrite !active_app, H, ?Hf; cbn [active]; lia.
  - cbn [emit trace is_running]. rewrite active_app, H. cbn [active]. lia.
Qed.

Lemma after_stop_flag (W : World) (s : Session) :
  flag_is_exact s -> flag_is_exact (after_stop W s).
Proof.
  unfold flag_is_exact, after_stop. intros H.
  destruct (armed s) eqn:Ha.
  - assert (Hf : is_running s = true).
    { unfold armed in Ha. destruct (speech_recognizer s); [exact Ha|discriminate]. }
    rewrite Hf in H.
    destruct (stop_fault W _); cbn [emit set_running trace is_running];
      rewrite !active_app, H, ?Hf; cbn [active]; lia.
  - cbn [emit trace is_running]. rewrite active_app, H. cbn [active]. lia.
Qed.

Lemma run_ops_flag (W : World) (ops : list Op) :
  forall s, flag_is_exact s -> flag_is_exact (snd (run_ops W ops s)).
Proof.
  induction ops as [|[] ops IH]; intros s H; [exact H| |];
    cbn [run_ops]; unfold bind.
  - rewrite start_recognition_eq. apply IH, after_start_flag, H.
  - rewrite stop_recognition_eq. apply IH, after_stop_flag, H.
Qed.

Lemma after_start_idle (W : World) (s : Session) :
  idle (after_start W s) =
  idle s && raised (start_fault W (count is_up_start (trace s))).
Proof.
  unfold after_start. destruct (idle s) eqn:Hi; cbn [andb].
  - destruct (start_fault W _); unfold idle in *;
      cbn [emit set_running speech_recognizer is_running raised].
    + exact Hi.
    + destruct (speech_recognizer s); reflexivity.
  - unfold idle in *. cbn [emit speech_recognizer is_running]. exact Hi.
Qed.

Lemma after_stop_armed (W : World) (s : Session) :
  armed (after_stop W s) =
  armed s && raised (stop_fault W (count is_up_stop (trace s))).
Proof.
  unfold after_stop. destruct (armed s) eqn:Ha; cbn [andb].
  - destruct (stop_fault W _); unfold armed in *;
      cbn [emit set_running speech_recognizer is_running raised].
    + exact Ha.
    + destruct (speech_recognizer s); reflexivity.
  - unfold armed in *. cbn [emit speech_recognizer is_running]. exact Ha.
Qed.

Lemma after_start_upstream (W : World) (s : Session) :
  count is_up_start (trace (after_start W s)) =
  count is_up_start (trace s) + (if idle s then 1 else 0).
Proof.
  unfold after_start. destruct (idle s).
  - destruct (start_fault W _); cbn [emit set_running trace];
      rewrite !count_app, !count_cons, !count_nil; cbn; lia.
  - cbn [emit trace]. rewrite count_app, count_cons, count_nil. cbn. lia.
Qed.

Lemma after_stop_upstream (W : World) (s : Session) :
  count is_up_stop (trace (after_stop W s)) =
  count is_up_stop (trace s) + (if armed s then 1 else 0).
Proof.
  unfold after_stop. destruct (armed s).
  - destruct (stop_fault W _); cbn [emit set_running trace];
      rewrite !count_app, !count_cons, !count_nil; cbn; lia.
  - cbn [emit trace]. rewrite count_app, count_cons, count_nil. cbn. lia.
Qed.

(** C7, as the code has it.  [start_recognition] calls the engine only with
    a recognizer and the flag unset, and sets the flag only when that call
    returns.  So two calls in a row start the engine once when the first
    start returns, and once more when it raised; with no recognizer, or with
    the flag set, a call does nothing.  [stop_recognition] is the mirror
    image.  Along any sequence of the two calls the flag is set exactly when
    one recognition is in progress, and never more than one is. *)
Theorem start_and_stop_act_on_the_flag (W : World) (s : Session) :
  let starts := count is_up_start (trace s) in
  let stops := count is_up_stop (trace s) in
  let started := snd (start_recognition W s) in
  let stopped := snd (stop_recognition W s) in
  let twice_started := snd ((start_recognition W ;; start_recognition W) s) in
  let twice_stopped := snd ((stop_recognition W ;; stop_recognition W) s) in
  count is_up_start (trace twice_started) =
    starts + (if idle s then if raised (start_fault W starts) then 2 else 1 else 0) /\
  count is_up_stop (trace twice_stopped) =
    stops + (if armed s then if raised (stop_fault W stops) then 2 else 1 else 0) /\
  is_running started = is_running s || (idle s && negb (raised (start_fault W starts))) /\
  is_running stopped = is_running s && negb (armed s && negb (raised (stop_fault W stops))) /\
  (idle s = false -> started = emit (ECall start_recognition_m) s) /\
  (armed s = false -> stopped = emit (ECall stop_recognition_m) s) /\
  (speech_recognizer s = None -> idle s = false /\ armed s = false) /\
  (forall ops, flag_is_exact s ->
     let s' := snd (run_ops W ops s) in
     flag_is_exact s' /\ (0 <= active (trace s') <= 1)%Z).
Proof.
  cbn zeta. unfold bind. rewrite !start_recognition_eq, !stop_recognition_eq.
  cbn [snd]. split; [|split; [|split; [|split; [|split; [|split; [|split]]]]]].
  - rewrite after_start_upstream, after_start_idle, after_start_upstream.
    destruct (idle s); cbn [andb]; [|lia].
    destruct (start_fault W (count is_up_start (trace s))); cbn; lia.
  - rewrite after_stop_upstream, after_stop_armed, after_stop_upstream.
    destruct (armed s); cbn [andb]; [|lia].
    destruct (stop_fault W (count is_up_stop (trace s))); cbn; lia.
  - unfold after_start, idle. destruct (speech_recognizer s).
    + destruct (is_running s) eqn:E; cbn [negb]; [exact E|].
      destruct (start_fault W _); cbn; [exact E|reflexivity].
    + cbn. rewrite orb_false_r. reflexivity.
  - unfold after_stop, armed. destruct (speech_recognizer s).
    + destruct (is_running s) eqn:E; [|exact E].
      destruct (stop_fault W _); cbn; [exact E|reflexivity].
    + cbn. rewrite andb_true_r. reflexivity.
  - intros H. unfold after_start. rewrite H. reflexivity.
  - intros H. unfold after_stop. rewrite H. reflexivity.
  - intros H. unfold idle, armed. rewrite H. split; reflexivity.
  - intros ops H. pose proof (run_ops_flag W ops s H) as H'.
    split; [exact H'|]. unfold flag_is_exact in H'. rewrite H'.
    destruct (is_running _); lia.
Qed.

Lemma start_and_stop_act_on_the_flag_witness :
  let s := set_recognizer (Some (wired_recognizer calm)) (new_session []) in
  flag_is_exact s /\
  flag_is_exact (snd (run_ops calm [OpStart; OpStart; OpStop; OpStop] s)).
Proof.
  split; [reflexivity|].
  refine (proj1 (proj2 (proj2 (proj2 (proj2 (proj2 (proj2 (proj2
    (start_and_stop_act_on_the_flag calm
       (set_recognizer (Some (wired_recognizer calm)) (new_session [])))))))))
    [OpStart; OpStart; OpStop; OpStop] _)).
  reflexivity.
Defined.

(** C7, as stated, fails.  The engine refuses the first start and the first
    stop.  Two calls of [start_recognition] in a row then call the engine's
    start twice, and two calls of [stop_recognition] in a row call its stop
    twice. *)
Lemma second_call_reaches_engine_after_a_refusal :
  let s := set_recognizer (Some (wired_recognizer flaky_engine)) (new_session []) in
  let started := snd ((start_recognition flaky_engine ;; start_recognition flaky_engine) s) in
  let stopped := snd ((stop_recognition flaky_engine ;; stop_recognition flaky_engine) started) in
  trace started
  = [ECall start_recognition_m;
     EUpStart (Some (RuntimeError "SPXERR_START_FAILED"));
     ELog ERROR_LEVEL "Failed to start speech recognition: SPXERR_START_FAILED";
     ECall start_recognition_m;
     EUpStart None;
     ELog INFO "Started continuous speech recognition"] /\
  count is_up_start (trace started) = 2 /\
  count is_up_stop (trace stopped) = 2 /\
  is_running stopped = false.
Proof.
  vm_compute. repeat split.
Qed.

(** ** Events of the recognizer *)

Section Events.

Variable W : World.

Lemma perform_all_eq (acts : list ThreadAction) :
  forall s, perform_all W acts s = (Returns tt, fold_left (after_perform W) acts s).
Proof.
  induction acts as [|a acts IH]; intros s; [reflexivity|].
  cbn [perform_all fold_left]. unfold bind.
  destruct a as [l text|m]; cbn [perform after_perform].
  - apply IH.
  - rewrite send_message_eq. apply IH.
Qed.

Lemma after_send_message_fields (m : OutMsg) (s : Session) :
  speech_recognizer (after_send_message W m s) = speech_recognizer s /\
  is_running (after_send_message W m s) = is_running s /\
  inbox (after_send_message W m s) = inbox s.
Proof.
  unfold after_send_message. destruct (send_fault W _); repeat split.
Qed.

Lemma after_send_message_trace (m : OutMsg) (s : Session) :
  trace (after_send_message W m s) =
  (trace s ++ ESend m (send_fault W (count is_send (trace s)))
     :: match send_fault W (count is_send (trace s)) with
        | Some e => [ELog ERROR_LEVEL ("Failed to send message to client: " ++ exn_str e)]
        | None => []
        end)%list.
Proof.
  unfold after_send_message. destruct (send_fault W _); cbn [emit trace];
    rewrite <- ?app_assoc; reflexivity.
Qed.

Lemma perform_all_fields (acts : list ThreadAction) :
  forall s,
    speech_recognizer (fold_left (after_perform W) acts s) = speech_recognizer s /\
    is_running (fold_left (after_perform W) acts s) = is_running s /\
    inbox (fold_left (after_perform W) acts s) = inbox s.
Proof.
  induction acts as [|a acts IH]; intros s; [repeat split|].
  cbn [fold_left]. destruct (IH (after_perform W s a)) as (-> & -> & ->).
  destruct a as [l text|m]; cbn [after_perform]; [repeat split|].
  apply after_send_message_fields.
Qed.

Lemma sends_after_send_message (m : OutMsg) (s : Session) :
  sends (trace (after_send_message W m s)) = (sends (trace s) ++ [m])%list.
Proof.
  rewrite after_send_message_trace, sends_app. cbn [sends].
  destruct (send_fault W _); reflexivity.
Qed.

Lemma delivered_after_send_message (m : OutMsg) (s : Session) :
  send_fault W (count is_send (trace s)) = None ->
  delivered (trace (after_send_message W m s)) = (delivered (trace s) ++ [m])%list.
Proof.
  intros H. rewrite after_send_message_trace, delivered_app, H. reflexivity.
Qed.

End Events.

(** What the callback of [canceled] sets out to do: on an object that has
    the two attributes it reads, it logs the text and hands the loop one
    error frame with it. *)
Lemma canceled_handler_with_attributes
    (obj : PyObject) (reason : CancellationReason) (details : string) :
  lookup (attributes obj) "reason" = Some (PyReason reason) ->
  lookup (attributes obj) "error_details" = Some (PyStr details) ->
  _canceled_handler obj =
  inr [TLog ERROR_LEVEL (canceled_text reason details);
       TSubmit (mk_msg "error" (canceled_text reason details))].
Proof.
  intros Hr Hd. unfold _canceled_handler, getattr. rewrite Hr, Hd.
  destruct reason; reflexivity.
Qed.

(** On the object the SDK hands it, the first read of the callback raises. *)
Lemma canceled_handler_on_sdk_event (reason : CancellationReason) (details : string) :
  _canceled_handler (canceled_event_args reason details) =
  inl (AttributeError
         "'SpeechRecognitionCanceledEventArgs' object has no attribute 'reason'").
Proof. reflexivity. Qed.

(** C6, where the code departs from it.  The callback connected to the
    [canceled] signal reads [evt.reason], and the event object of the SDK has
    no such attribute: its reason and error details are on
    [evt.cancellation_details].  So for every Canceled event the callback
    raises on the SDK's thread before it logs or hands anything to the loop:
    no frame is written and the session is exactly as it was, whatever the
    reason and the details. *)
Theorem canceled_event_is_lost
    (W : World) (s : Session) (r : Recognizer)
    (reason : CancellationReason) (details : string) :
  speech_recognizer s = Some r ->
  on_canceled r = [_canceled_handler] ->
  _canceled_handler (canceled_event_args reason details) =
  inl (AttributeError
         "'SpeechRecognitionCanceledEventArgs' object has no attribute 'reason'") /\
  callbacks r (EvCanceled reason details) = [] /\
  fire W (EvCanceled reason details) s = (Returns tt, s).
Proof.
  intros Hr Hc.
  assert (Hcb : callbacks r (EvCanceled reason details) = []).
  { cbn [callbacks]. rewrite Hc. reflexivity. }
  split; [reflexivity|]. split; [exact Hcb|].
  unfold fire, bind, gets. rewrite Hr, Hcb. reflexivity.
Qed.

Lemma canceled_event_is_lost_witness :
  speech_recognizer (ready calm []) = Some (wired_recognizer calm) /\
  on_canceled (wired_recognizer calm) = [_canceled_handler] /\
  fire calm (EvCanceled Error "connection lost") (ready calm [])
  = (Returns tt, ready calm []).
Proof.
  split; [reflexivity|]. split; [reflexivity|].
  exact (proj2 (proj2 (canceled_event_is_lost calm (ready calm []) (wired_recognizer calm)
                         Error "connection lost" eq_refl eq_refl))).
Defined.

(** C9. When the recognizer raises a Recognized event, the callback that the
    initialization connected acts on the reason of the result.  For
    [RecognizedSpeech] it hands exactly one frame to the event loop,
    [{type: final_transcript, text: <result text>}], and that is the one
    frame written.  For [NoMatch] it hands over nothing: the event leaves
    one log line and no write. *)
Theorem recognized_event_by_reason
    (W : World) (s : Session) (r : Recognizer) (text : string) :
  speech_recognizer s = Some r ->
  on_recognized r = [_recognized_handler] ->
  callbacks r (EvRecognized (mk_result text RecognizedSpeech))
  = [TSubmit (mk_msg "final_transcript" text)] /\
  callbacks r (EvRecognized (mk_result text NoMatch))
  = [TLog INFO "No speech recognized"] /\
  (exists s',
      fire W (EvRecognized (mk_result text RecognizedSpeech)) s = (Returns tt, s') /\
      sends (trace s') = (sends (trace s) ++ [mk_msg "final_transcript" text])%list) /\
  fire W (EvRecognized (mk_result text NoMatch)) s
  = (Returns tt, emit (ELog INFO "No speech recognized") s) /\
  sends (trace (emit (ELog INFO "No speech recognized") s)) = sends (trace s).
Proof.
  intros Hr Hc.
  assert (H1 : callbacks r (EvRecognized (mk_result text RecognizedSpeech))
               = [TSubmit (mk_msg "final_transcript" text)]).
  { cbn [callbacks]. rewrite Hc. reflexivity. }
  assert (H2 : callbacks r (EvRecognized (mk_result text NoMatch))
               = [TLog INFO "No speech recognized"]).
  { cbn [callbacks]. rewrite Hc. reflexivity. }
  split; [exact H1|]. split; [exact H2|].
  unfold fire, bind, gets. rewrite Hr, H1, H2, !perform_all_eq.
  cbn [fold_left after_perform]. repeat split.
  - eexists. split; [reflexivity|]. apply sends_after_send_message.
  - cbn [emit trace]. rewrite sends_app. cbn [sends]. apply app_nil_r.
Qed.

Lemma recognized_event_by_reason_witness :
  speech_recognizer (ready calm []) = Some (wired_recognizer calm) /\
  on_recognized (wired_recognizer calm) = [_recognized_handler] /\
  callbacks (wired_recognizer calm) (EvRecognized (mk_result "hello" RecognizedSpeech))
  = [TSubmit (mk_msg "final_transcript" "hello")].
Proof.
  split; [reflexivity|]. split; [reflexivity|].
  exact (proj1 (recognized_event_by_reason calm (ready calm []) (wired_recognizer calm)
                  "hello" eq_refl eq_refl)).
Defined.

(** C10. [_send_message] never raises.  Whether the write to the socket
    returns or raises, the coroutine returns; a write that raised leaves one
    error line in the log and nothing else.  So whatever event the
    recognizer raises and whatever its callbacks hand to the event loop, the
    loop returns from it with the recognizer handle, the running flag and
    the frames still to be received exactly as they were. *)
Theorem failed_client_write_is_swallowed (W : World) (s : Session) :
  (forall m,
      exists s',
        _send_message W m s = (Returns tt, s') /\
        speech_recognizer s' = speech_recognizer s /\
        is_running s' = is_running s /\
        inbox s' = inbox s /\
        trace s' =
          (trace s ++ ESend m (send_fault W (count is_send (trace s)))
             :: match send_fault W (count is_send (trace s)) with
                | Some e =>
                    [ELog ERROR_LEVEL ("Failed to send message to client: " ++ exn_str e)]
                | None => []
                end)%list) /\
  (forall ev,
      exists s',
        fire W ev s = (Returns tt, s') /\
        speech_recognizer s' = speech_recognizer s /\
        is_running s' = is_running s /\
        inbox s' = inbox s).
Proof.
  split.
  - intros m. exists (after_send_message W m s).
    split; [apply send_message_eq|].
    destruct (after_send_message_fields W m s) as (H1 & H2 & H3).
    repeat split; try assumption. apply after_send_message_trace.
  - intros ev. unfold fire, bind, gets.
    destruct (speech_recognizer s) as [r|] eqn:Hr.
    + rewrite perform_all_eq. eexists. split; [reflexivity|].
      destruct (perform_all_fields W (callbacks r ev) s) as (H1 & H2 & H3).
      rewrite H1, H2, H3. repeat split. exact Hr.
    + exists s. repeat split. exact Hr.
Qed.

(** The client has gone while a partial transcript is on its way: the write
    raises, the coroutine returns, and the manager is untouched. *)
Example partial_transcript_to_a_client_that_has_gone :
  let s := ready client_gone [text_frame close_request] in
  fire client_gone (EvRecognizing (mk_result "hel" RecognizingSpeech)) s
  = (Returns tt,
     emit (ELog ERROR_LEVEL
             "Failed to send message to client: Cannot write to closing transport")
       (emit (ESend (mk_msg "partial_transcript" "hel") (Some ConnectionResetError)) s)).
Proof. reflexivity. Qed.

(** * Beyond the stated claims *)

(** ** The event stream *)

Section EventStream.

Variable W : World.

Lemma perform_all_quiet (acts : list ThreadAction) :
  forall s, extends_quietly s (fold_left (after_perform W) acts s).
Proof.
  induction acts as [|a acts IH]; intros s; [apply extends_quietly_refl|].
  cbn [fold_left]. eapply extends_quietly_trans; [|apply IH].
  destruct a as [l text|m]; cbn [after_perform].
  - apply extends_quietly_emit. reflexivity.
  - unfold after_send_message. destruct (send_fault W _).
    + eapply extends_quietly_trans; apply extends_quietly_emit; reflexivity.
    + apply extends_quietly_emit. reflexivity.
Qed.

Lemma perform_all_sends (acts : list ThreadAction) :
  forall s,
    sends (trace (fold_left (after_perform W) acts s))
    = (sends (trace s) ++ submitted acts)%list.
Proof.
  induction acts as [|a acts IH]; intros s; cbn [fold_left submitted].
  - rewrite app_nil_r. reflexivity.
  - rewrite IH. destruct a as [l text|m]; cbn [after_perform].
    + cbn [emit trace]. rewrite sends_app. cbn [sends]. rewrite app_nil_r. reflexivity.
    + rewrite sends_after_send_message, <- app_assoc. reflexivity.
Qed.

Lemma perform_all_delivered (acts : list ThreadAction) :
  (forall n, send_fault W n = None) ->
  forall s,
    delivered (trace (fold_left (after_perform W) acts s))
    = (delivered (trace s) ++ submitted acts)%list.
Proof.
  intros Hw. induction acts as [|a acts IH]; intros s; cbn [fold_left submitted].
  - rewrite app_nil_r. reflexivity.
  - rewrite IH. destruct a as [l text|m]; cbn [after_perform].
    + cbn [emit trace]. rewrite delivered_app. cbn [delivered].
      rewrite app_nil_r. reflexivity.
    + rewrite (delivered_after_send_message W m s (Hw _)), <- app_assoc. reflexivity.
Qed.

Lemma recognized_handler_submits (result : SpeechResult) :
  submitted (_recognized_handler result) = frame_of (EvRecognized result).
Proof.
  unfold _recognized_handler. cbn [frame_of].
  destruct (result_reason result); reflexivity.
Qed.

(** With the manager's callbacks connected, what an event hands to the loop
    is the frame it is relayed as. *)
Lemma callbacks_submit (r : Recognizer) (ev : SdkEvent) :
  wired r -> submitted (callbacks r ev) = frame_of ev.
Proof.
  intros (H1 & H2 & H3 & H4). destruct ev as [res|res|reason details|];
    cbn [callbacks]; rewrite ?H1, ?H2, ?H3, ?H4; cbn [flat_map]; rewrite ?app_nil_r.
  - reflexivity.
  - apply recognized_handler_submits.
  - reflexivity.
  - reflexivity.
Qed.

Lemma fire_eq (ev : SdkEvent) (s : Session) (r : Recognizer) :
  speech_recognizer s = Some r ->
  fire W ev s = (Returns tt, fold_left (after_perform W) (callbacks r ev) s).
Proof.
  intros Hr. unfold fire, bind, gets. rewrite Hr. apply perform_all_eq.
Qed.

End EventStream.

(** X1. With the manager's four callbacks connected, a sequence of
    recognizer events is relayed frame by frame in the order the events were
    raised: a partial transcript for each Recognizing event, a final
    transcript for each Recognized event whose reason is [RecognizedSpeech]
    and nothing for any other reason, an info frame for each SessionStopped
    event, and nothing for a Canceled event, whose callback raises on the
    event object of the SDK.  No other frame is written, none of these is
    dropped or reordered, the relaying never raises on the loop, and when
    every write returns these are the frames the client gets. *)
Theorem events_are_relayed_in_order
    (W : World) (evs : list SdkEvent) :
  forall (s : Session) (r : Recognizer),
    speech_recognizer s = Some r -> wired r ->
    exists s',
      fire_all W evs s = (Returns tt, s') /\
      sends (trace s') = (sends (trace s) ++ flat_map frame_of evs)%list /\
      ((forall n, send_fault W n = None) ->
       delivered (trace s') = (delivered (trace s) ++ flat_map frame_of evs)%list).
Proof.
  induction evs as [|ev evs IH]; intros s r Hr Hw.
  - exists s. cbn [fire_all flat_map]. rewrite !app_nil_r. repeat split.
  - cbn [fire_all flat_map]. unfold bind. rewrite (fire_eq W ev s r Hr).
    set (s1 := fold_left (after_perform W) (callbacks r ev) s).
    assert (Hr1 : speech_recognizer s1 = Some r).
    { destruct (perform_all_fields W (callbacks r ev) s) as (H & _). fold s1 in H.
      rewrite H. exact Hr. }
    destruct (IH s1 r Hr1 Hw) as (s' & Hf & Hs & Hd).
    exists s'. split; [exact Hf|]. split.
    + rewrite Hs. unfold s1. rewrite perform_all_sends, (callbacks_submit r ev Hw).
      rewrite app_assoc. reflexivity.
    + intros Hok. rewrite (Hd Hok). unfold s1.
      rewrite (perform_all_delivered W _ Hok), (callbacks_submit r ev Hw).
      rewrite app_assoc. reflexivity.
Qed.

Lemma events_are_relayed_in_order_witness :
  speech_recognizer (ready calm []) = Some (wired_recognizer calm) /\
  wired (wired_recognizer calm) /\
  exists s',
    fire_all calm
      [EvRecognizing (mk_result "hel" RecognizingSpeech);
       EvRecognized (mk_result "" NoMatch);
       EvRecognized (mk_result "hello" RecognizedSpeech);
       EvCanceled Error "connection lost";
       EvSessionStopped] (ready calm [])
    = (Returns tt, s') /\
    sends (trace s')
    = [mk_msg "partial_transcript" "hel"; mk_msg "final_transcript" "hello";
       mk_msg "info" "Session stopped"].
Proof.
  split; [reflexivity|]. split; [repeat split|].
  destruct (events_are_relayed_in_order calm
              [EvRecognizing (mk_result "hel" RecognizingSpeech);
               EvRecognized (mk_result "" NoMatch);
               EvRecognized (mk_result "hello" RecognizedSpeech);
               EvCanceled Error "connection lost";
               EvSessionStopped]
              (ready calm []) (wired_recognizer calm) eq_refl
              (conj eq_refl (conj eq_refl (conj eq_refl eq_refl))))
    as (s' & Hf & Hs & _).
  exists s'. split; [exact Hf|exact Hs].
Defined.

Lemma fire_all_quiet (W : World) (evs : list SdkEvent) :
  forall s,
    exists s',
      fire_all W evs s = (Returns tt, s') /\
      extends_quietly s s' /\ inbox s' = inbox s.
Proof.
  induction evs as [|ev evs IH]; intros s.
  - exists s. repeat split. apply extends_quietly_refl.
  - cbn [fire_all]. unfold bind.
    assert (H : exists s1, fire W ev s = (Returns tt, s1) /\
                           extends_quietly s s1 /\ inbox s1 = inbox s).
    { unfold fire, bind, gets. destruct (speech_recognizer s) as [r|].
      - rewrite perform_all_eq. eexists. split; [reflexivity|]. split.
        + apply perform_all_quiet.
        + apply perform_all_fields.
      - exists s. repeat split. apply extends_quietly_refl. }
    destruct H as (s1 & -> & Hq1 & Hi1).
    destruct (IH s1) as (s' & Hf & Hq & Hi).
    exists s'. split; [exact Hf|]. split.
    + eapply extends_quietly_trans; eassumption.
    + congruence.
Qed.

(** X2. No event of the recognizer clears the running flag, not even
    SessionStopped or Canceled.  So whatever events arrived while
    recognition was running, the [stop_recognition] that follows still calls
    the engine's stop, exactly once. *)
Theorem events_leave_the_stop_to_cleanup
    (W : World) (evs : list SdkEvent) (s : Session) :
  armed s = true ->
  let s' := snd ((fire_all W evs ;; stop_recognition W) s) in
  fst ((fire_all W evs ;; stop_recognition W) s) = Returns tt /\
  count is_up_stop (trace s') = count is_up_stop (trace s) + 1 /\
  is_running s' = raised (stop_fault W (count is_up_stop (trace s))).
Proof.
  intros Ha. unfold bind.
  destruct (fire_all_quiet W evs s) as (s1 & -> & (Hr & Hf & d & Ht & Hd) & _).
  rewrite stop_recognition_eq. cbn [fst snd].
  assert (Ha1 : armed s1 = true) by (unfold armed in *; rewrite Hr, Hf; exact Ha).
  assert (Hc : count is_up_stop (trace s1) = count is_up_stop (trace s)).
  { rewrite Ht, count_app, (count_loop_effects is_up_stop d); [lia| |assumption].
    intros []; simpl; congruence. }
  split; [reflexivity|]. split.
  - rewrite after_stop_upstream, Ha1, Hc. reflexivity.
  - rewrite after_stop_running, Ha1, Hc. reflexivity.
Qed.

Lemma events_leave_the_stop_to_cleanup_witness :
  armed (ready calm []) = true /\
  count is_up_stop
    (trace (snd ((fire_all calm [EvSessionStopped; EvCanceled EndOfStream ""] ;;
                  stop_recognition calm) (ready calm [])))) = 1.
Proof.
  split; [reflexivity|].
  exact (proj1 (proj2 (events_leave_the_stop_to_cleanup calm
                         [EvSessionStopped; EvCanceled EndOfStream ""]
                         (ready calm []) eq_refl))).
Defined.

(** ** Initialization, beyond its failure *)

(** X3. With a credential and a region in the environment and an SDK that
    accepts every call, [initialize_speech_recognizer] returns [True] and
    leaves in the manager a recognizer built from that credential and that
    region, set to the language [en-US], with exactly one callback on each of
    its four signals.  It writes nothing to the socket, does not start
    recognition, and logs one line. *)
Theorem initialization_installs_the_recognizer
    (W : World) (s : Session) (key reg : string) :
  getenv W "api_key" = Some key -> key <> "" ->
  getenv W "region" = Some reg -> reg <> "" ->
  (forall step, init_fault W step = None) ->
  let s' := snd (initialize_speech_recognizer W s) in
  fst (initialize_speech_recognizer W s) = Returns true /\
  speech_recognizer s'
  = Some (mk_recognizer key reg "en-US"
            [_recognizing_handler] [_recognized_handler] [_canceled_handler]
            [_session_stopped_handler]) /\
  is_running s' = is_running s /\
  inbox s' = inbox s /\
  trace s' = (trace s ++ [ELog INFO "Azure Speech SDK initialized successfully"])%list.
Proof.
  intros Hk Hk' Hr Hr' Hf.
  assert (Hi : init_failure W = None).
  { unfold init_failure, misconfigured. rewrite Hk, Hr. cbn [truthy].
    apply String.eqb_neq in Hk', Hr'. rewrite Hk', Hr'. cbn.
    rewrite !Hf. reflexivity. }
  rewrite (initialize_success W s Hi). cbn [fst snd].
  unfold wired_recognizer. rewrite Hk, Hr. repeat split.
Qed.

Lemma initialization_installs_the_recognizer_witness :
  getenv calm "api_key" = Some "0123456789abcdef" /\
  getenv calm "region" = Some "westeurope" /\
  fst (initialize_speech_recognizer calm (new_session [])) = Returns true.
Proof.
  split; [reflexivity|]. split; [reflexivity|].
  refine (proj1 (initialization_installs_the_recognizer calm (new_session [])
                   "0123456789abcdef" "westeurope" eq_refl _ eq_refl _ _)).
  - discriminate.
  - discriminate.
  - reflexivity.
Defined.

(** X4. Whether initialization leaves a recognizer in the manager depends
    only on the configuration and the two constructors: a recognizer is
    installed exactly when credential and region are present and
    [SpeechConfig] and [SpeechRecognizer] both return.  A failure while the
    callbacks are being connected makes the method report failure but leaves
    the recognizer it had already stored.  The running flag is never
    touched. *)
Theorem recognizer_is_stored_before_it_is_wired (W : World) (s : Session) :
  speech_recognizer s = None ->
  let s' := snd (initialize_speech_recognizer W s) in
  installed s' =
    negb (misconfigured W)
    && negb (raised (init_fault W MkSpeechConfig))
    && negb (raised (init_fault W MkSpeechRecognizer)) /\
  is_running s' = is_running s /\
  (fst (initialize_speech_recognizer W s) = Returns true <-> init_failure W = None).
Proof.
  intros Hn.
  destruct (init_failure W) as [e|] eqn:Hi.
  - destruct (initialize_failure W e s Hi) as [r Hr].
    assert (Hinst : installed (snd (initialize_speech_recognizer W s)) =
              negb (misconfigured W)
              && negb (raised (init_fault W MkSpeechConfig))
              && negb (raised (init_fault W MkSpeechRecognizer))).
    { clear Hr. unfold init_failure in Hi. unfold initialize_speech_recognizer,
        try_except, bind, sdk, installed. fold (misconfigured W).
      destruct (misconfigured W).
      - cbn. rewrite ws_send_json_eq. cbn.
        destruct (send_fault W _); cbn; exact (f_equal _ Hn) || (rewrite Hn; reflexivity).
      - cbn [first_fault init_steps] in Hi. cbn [negb andb ret].
        destruct (init_fault W MkSpeechConfig).
        { cbn. rewrite ws_send_json_eq. cbn. destruct (send_fault W _); cbn;
            rewrite Hn; reflexivity. }
        destruct (init_fault W MkSpeechRecognizer).
        { cbn. rewrite ws_send_json_eq. cbn. destruct (send_fault W _); cbn;
            rewrite Hn; reflexivity. }
        cbn [raised negb andb modify on_recognizer].
        destruct (init_fault W ConnectRecognizing).
        { cbn. rewrite ws_send_json_eq. cbn. destruct (send_fault W _); reflexivity. }
        destruct (init_fault W ConnectRecognized).
        { cbn. rewrite ws_send_json_eq. cbn. destruct (send_fault W _); reflexivity. }
        destruct (init_fault W ConnectCanceled).
        { cbn. rewrite ws_send_json_eq. cbn. destruct (send_fault W _); reflexivity. }
        destruct (init_fault W ConnectSessionStopped).
        { cbn. rewrite ws_send_json_eq. cbn. destruct (send_fault W _); reflexivity. }
        discriminate. }
    split; [exact Hinst|]. rewrite Hr. cbn [fst snd]. split; [reflexivity|].
    split; [|discriminate].
    destruct (send_fault W _); discriminate.
  - rewrite (initialize_success W s Hi). cbn [fst snd].
    destruct (init_failure_none W Hi) as [Hc Hf].
    unfold installed. cbn. rewrite Hc, !Hf. repeat split.
Qed.

Lemma recognizer_is_stored_before_it_is_wired_witness :
  speech_recognizer (new_session []) = None /\
  fst (initialize_speech_recognizer connect_refused (new_session [])) = Returns false /\
  installed (snd (initialize_speech_recognizer connect_refused (new_session []))) = true.
Proof.
  split; [reflexivity|]. split; [reflexivity|].
  exact (proj1 (recognizer_is_stored_before_it_is_wired connect_refused
                  (new_session []) eq_refl)).
Defined.

(** X5. A credential or a region that is absent, or present but empty,
    stops the route before the SDK is touched: no recognizer is built, the
    one frame written is the error frame with the fixed text of the
    [ValueError], and no frame is read, whatever the SDK would have
    answered. *)
Theorem empty_configuration_counts_as_missing (W : World) (frames : list Inbound) :
  prepare_fault W = None ->
  getenv W "api_key" = None \/ getenv W "api_key" = Some "" \/
  getenv W "region" = None \/ getenv W "region" = Some "" ->
  let s := snd (run W frames) in
  sends (trace s)
  = [mk_msg "error"
       "Failed to initialize speech recognition: Please set api_key and region in your .env file"] /\
  speech_recognizer s = None /\
  inbox s = frames /\
  fst (run W frames) = outcome_of (send_fault W 0).
Proof.
  intros Hp Hm.
  assert (Hc : misconfigured W = true).
  { unfold misconfigured.
    destruct Hm as [H|[H|[H|H]]]; rewrite H; cbn; rewrite ?orb_true_r; reflexivity. }
  unfold run, handle_transcribe_ws, bind, external. rewrite Hp.
  cbn [log modify]. unfold initialize_speech_recognizer, try_except, bind.
  fold (misconfigured W). rewrite Hc. cbn [raise any_Exception log modify].
  rewrite ws_send_json_eq. cbn.
  destruct (send_fault W 0); cbn; repeat split.
Qed.

Lemma empty_configuration_counts_as_missing_witness :
  prepare_fault empty_credential = None /\
  getenv empty_credential "api_key" = Some "" /\
  inbox (snd (run empty_credential [text_frame close_request]))
  = [text_frame close_request].
Proof.
  split; [reflexivity|]. split; [reflexivity|].
  refine (proj1 (proj2 (proj2
    (empty_configuration_counts_as_missing empty_credential
       [text_frame close_request] eq_refl _)))).
  right. left. reflexivity.
Defined.

(** ** The loop, frame by frame *)

Lemma recvs_app (a b : list Effect) : recvs (a ++ b)%list = (recvs a ++ recvs b)%list.
Proof.
  induction a as [|e a IH]; simpl; [reflexivity|].
  destruct e; simpl; rewrite ?IH; reflexivity.
Qed.

Lemma count_recv_length (tr : list Effect) : count is_recv tr = length (recvs tr).
Proof.
  induction tr as [|e tr IH]; [reflexivity|].
  rewrite count_cons. destruct e; cbn [is_recv recvs length]; lia.
Qed.

Section Frames.

Variable W : World.

(** What one pass of the body adds to the trace: no receive, at most one
    write, and only error frames. *)
Lemma loop_body_delta (msg : WSMessage) (s s' : Session) (r : Outcome Ctl) :
  loop_body W msg s = (r, s') ->
  inbox s' = inbox s /\
  exists d,
    trace s' = (trace s ++ d)%list /\
    recvs d = [] /\
    count is_send d <= 1 /\
    forallb writes_only_errors d = true.
Proof.
  assert (Hnil : forall s0 : Session,
    exists d, trace s0 = (trace s0 ++ d)%list /\ recvs d = [] /\
              count is_send d <= 1 /\ forallb writes_only_errors d = true).
  { intros s0. exists []. rewrite app_nil_r. repeat split. cbn. lia. }
  assert (Hlog : forall (s0 : Session) l text,
    exists d, trace (emit (ELog l text) s0) = (trace s0 ++ d)%list /\ recvs d = [] /\
              count is_send d <= 1 /\ forallb writes_only_errors d = true).
  { intros s0 l text. exists [ELog l text]. repeat split. cbn. lia. }
  destruct (frame_type msg) eqn:Ht;
    try (unfold loop_body, bind, log, modify; rewrite Ht; intros [= _ <-];
         split; [reflexivity|]; solve [apply Hnil | apply Hlog]).
  destruct (json_loads W (frame_data msg)) as [e|data] eqn:Hj.
  - destruct (is_JSONDecodeError e) eqn:He.
    + rewrite (loop_body_invalid_json W msg e s Ht Hj He). intros [= _ <-].
      split; [reflexivity|]. eexists. split.
      * cbn [emit trace]. rewrite <- app_assoc. reflexivity.
      * repeat split. cbn. lia.
    + unfold loop_body. rewrite Ht. unfold try_except, bind. rewrite Hj.
      cbn [raise]. rewrite He. intros [= _ <-]. split; [reflexivity|]. apply Hnil.
  - destruct (is_object data) eqn:Ho.
    + destruct data; try discriminate.
      rewrite (loop_body_object W msg pairs s Ht Hj).
      destruct (asks_close (JObj pairs)); intros [= _ <-]; (split; [reflexivity|]).
      * eexists. split; [cbn [emit trace]; rewrite <- app_assoc; reflexivity|].
        repeat split. cbn. lia.
      * apply Hlog.
    + rewrite (loop_body_not_object W msg data s Ht Hj Ho). intros [= _ <-].
      split; [reflexivity|]. apply Hlog.
Qed.

(** What the loop adds to the trace: the frames it took, in order, at most
    one write for each of them, and only error frames. *)
Lemma async_for_delta (frames : list Inbound) :
  forall (s s' : Session) (r : Outcome unit),
    inbox s = frames ->
    async_for W frames s = (r, s') ->
    exists d,
      trace s' = (trace s ++ d)%list /\
      (recvs d ++ inbox s')%list = frames /\
      count is_send d <= length (recvs d) /\
      forallb writes_only_errors d = true.
Proof.
  induction frames as [|i rest IH]; intros s s' r Hin.
  - intros [= _ <-]. exists []. rewrite app_nil_r.
    repeat split; [exact Hin|cbn; lia].
  - rewrite async_for_cons. cbn zeta.
    set (s1 := emit (ERecv i) (set_inbox rest s)).
    assert (Ht1 : trace s1 = (trace s ++ [ERecv i])%list) by reflexivity.
    assert (Hi1 : inbox s1 = rest) by reflexivity.
    destruct i as [msg|e].
    + destruct (loop_body W msg s1) as [r2 s2] eqn:Hb.
      apply loop_body_delta in Hb as (Hi2 & d2 & Ht2 & Hr2 & Hc2 & He2).
      assert (Hstop : exists d,
        trace s2 = (trace s ++ d)%list /\
        (recvs d ++ inbox s2)%list = Recv msg :: rest /\
        count is_send d <= length (recvs d) /\
        forallb writes_only_errors d = true).
      { exists (ERecv (Recv msg) :: d2). split.
        - rewrite Ht2, Ht1, <- app_assoc. reflexivity.
        - cbn [recvs]. rewrite Hr2, Hi2, Hi1. repeat split.
          + rewrite count_cons. cbn. exact Hc2.
          + cbn. exact He2. }
      destruct r2 as [[|]|e].
      * intros H. apply IH in H as (d3 & Ht3 & Hr3 & Hc3 & He3); [|congruence].
        exists (ERecv (Recv msg) :: d2 ++ d3)%list. split.
        -- rewrite Ht3, Ht2, Ht1, <- !app_assoc. reflexivity.
        -- cbn [recvs]. rewrite recvs_app, Hr2. cbn [app]. rewrite Hr3.
           repeat split.
           ++ rewrite count_cons, count_app. cbn [is_recv is_send length]. lia.
           ++ cbn. rewrite forallb_app, He2, He3. reflexivity.
      * intros [= _ <-]. exact Hstop.
      * intros [= _ <-]. exact Hstop.
    + intros [= _ <-]. exists [ERecv (RecvRaises e)]. repeat split. cbn. lia.
Qed.

End Frames.

Section Streams.

Variable W : World.

Hypothesis writes_return : forall n, send_fault W n = None.

(** One benign frame: the loop is at the next frame, having written its
    reply if it has one. *)
Lemma benign_frame_step (i : Inbound) (rest : list Inbound) (s : Session) :
  benign W i = true ->
  exists s',
    async_for W (i :: rest) s = async_for W rest s' /\
    speech_recognizer s' = speech_recognizer s /\
    is_running s' = is_running s /\
    inbox s' = rest /\
    sends (trace s') = (sends (trace s) ++ replies W i)%list /\
    recvs (trace s') = (recvs (trace s) ++ [i])%list.
Proof.
  intros Hb. rewrite async_for_cons. cbn zeta.
  destruct i as [msg|e]; [|discriminate].
  set (s1 := emit (ERecv (Recv msg)) (set_inbox rest s)).
  assert (Hs1 : sends (trace s1) = sends (trace s)).
  { unfold s1. cbn [emit set_inbox trace]. rewrite sends_app. apply app_nil_r. }
  assert (Hr1 : recvs (trace s1) = (recvs (trace s) ++ [Recv msg])%list).
  { unfold s1. cbn [emit set_inbox trace]. rewrite recvs_app. reflexivity. }
  unfold benign in Hb. unfold replies.
  destruct (frame_type msg) eqn:Ht; try discriminate;
    try (exists s1; unfold loop_body; rewrite Ht; cbn [ret];
         rewrite Hs1, Hr1, app_nil_r; repeat split).
  destruct (json_loads W (frame_data msg)) as [e|data] eqn:Hj.
  - rewrite (loop_body_invalid_json W msg e s1 Ht Hj Hb), writes_return.
    eexists. split; [reflexivity|]. cbn [emit speech_recognizer is_running inbox trace].
    repeat split.
    + rewrite !sends_app. cbn [sends]. rewrite Hs1, app_nil_r. reflexivity.
    + rewrite !recvs_app. cbn [recvs]. rewrite Hr1, !app_nil_r. reflexivity.
  - apply andb_true_iff in Hb as [Ho Hc]. destruct data; try discriminate.
    rewrite (loop_body_object W msg pairs s1 Ht Hj).
    apply negb_true_iff in Hc. rewrite Hc.
    eexists. split; [reflexivity|]. cbn [emit speech_recognizer is_running inbox trace].
    repeat split.
    + rewrite sends_app. cbn [sends]. rewrite Hs1, !app_nil_r. reflexivity.
    + rewrite recvs_app. cbn [recvs]. rewrite Hr1, !app_nil_r. reflexivity.
Qed.

Lemma benign_frames_steps (frames : list Inbound) :
  forall (rest : list Inbound) (s : Session),
    forallb (benign W) frames = true ->
    exists s',
      async_for W (frames ++ rest) s = async_for W rest s' /\
      speech_recognizer s' = speech_recognizer s /\
      is_running s' = is_running s /\
      inbox s' = match frames with [] => inbox s | _ => rest end /\
      sends (trace s') = (sends (trace s) ++ flat_map (replies W) frames)%list /\
      recvs (trace s') = (recvs (trace s) ++ frames)%list.
Proof.
  induction frames as [|i frames IH]; intros rest s Hb.
  - exists s. cbn [app flat_map]. rewrite !app_nil_r. repeat split.
  - cbn [forallb] in Hb. apply andb_true_iff in Hb as [Hi Hfs].
    cbn [app flat_map].
    destruct (benign_frame_step i (frames ++ rest) s Hi)
      as (s1 & -> & Hr1 & Hf1 & Hi1 & Hs1 & Hv1).
    destruct (IH rest s1 Hfs) as (s' & -> & Hr & Hf & Hin & Hs & Hv).
    exists s'. split; [reflexivity|]. repeat split; try congruence.
    + rewrite Hin. destruct frames; [exact Hi1|reflexivity].
    + rewrite Hs, Hs1, <- app_assoc. reflexivity.
    + rewrite Hv, Hv1, <- app_assoc. reflexivity.
Qed.

End Streams.

Lemma quiet_end_step (W : World) (i : Inbound) (rest : list Inbound) (s : Session) :
  ends_quietly W i = true ->
  exists s',
    async_for W (i :: rest) s = (Returns tt, s') /\
    inbox s' = rest /\
    sends (trace s') = sends (trace s) /\
    recvs (trace s') = (recvs (trace s) ++ [i])%list.
Proof.
  intros He. rewrite async_for_cons. cbn zeta.
  destruct i as [msg|e]; [|discriminate].
  set (s1 := emit (ERecv (Recv msg)) (set_inbox rest s)).
  assert (Hs1 : sends (trace s1) = sends (trace s)).
  { unfold s1. cbn [emit set_inbox trace]. rewrite sends_app. apply app_nil_r. }
  assert (Hr1 : recvs (trace s1) = (recvs (trace s) ++ [Recv msg])%list).
  { unfold s1. cbn [emit set_inbox trace]. rewrite recvs_app. reflexivity. }
  unfold ends_quietly in He.
  destruct (frame_type msg) eqn:Ht; try discriminate.
  - destruct (json_loads W (frame_data msg)) as [e|data] eqn:Hj; [discriminate|].
    destruct data; try discriminate.
    rewrite (loop_body_object W msg pairs s1 Ht Hj), He.
    eexists. split; [reflexivity|]. cbn [emit inbox trace]. repeat split.
    + rewrite !sends_app. cbn [sends]. rewrite Hs1, !app_nil_r. reflexivity.
    + rewrite !recvs_app. cbn [recvs]. rewrite Hr1, !app_nil_r. reflexivity.
  - rewrite (loop_body_close_frame W msg s1 Ht).
    eexists. split; [reflexivity|]. cbn [emit inbox trace]. repeat split.
    + rewrite sends_app. cbn [sends]. rewrite Hs1, app_nil_r. reflexivity.
    + rewrite recvs_app. cbn [recvs]. rewrite Hr1, app_nil_r. reflexivity.
  - rewrite (loop_body_error_frame W msg s1 Ht).
    eexists. split; [reflexivity|]. cbn [emit inbox trace]. repeat split.
    + rewrite sends_app. cbn [sends]. rewrite Hs1, app_nil_r. reflexivity.
    + rewrite recvs_app. cbn [recvs]. rewrite Hr1, app_nil_r. reflexivity.
Qed.

Lemma after_stop_inbox (W : World) (s : Session) : inbox (after_stop W s) = inbox s.
Proof.
  unfold after_stop. destruct (armed s); [|reflexivity].
  destruct (stop_fault W _); reflexivity.
Qed.

Lemma recvs_stop_effects (W : World) (s : Session) : recvs (stop_effects W s) = [].
Proof.
  unfold stop_effects. destruct (armed s); [|reflexivity].
  destruct (stop_fault W _); reflexivity.
Qed.

Lemma ready_sends_recvs (W : World) (frames : list Inbound) :
  sends (trace (ready W frames)) = [] /\ recvs (trace (ready W frames)) = [] /\
  forallb writes_only_errors (trace (ready W frames)) = true.
Proof.
  unfold ready, after_start. cbn. destruct (start_fault W 0); repeat split.
Qed.

(** X6. While the socket accepts writes, the loop stays in place over any
    run of benign frames: messages of a type the body does not test for
    (binary, ping, pong, continuation, closing, closed), text on which
    [json.loads] raises a [JSONDecodeError], and text on which it returns a
    dict whose [action] is not [close].  Every one of them is taken from the
    socket in order; each text with a [JSONDecodeError] is answered with its
    [Invalid JSON] frame and nothing else is written; the recognizer handle
    and the running flag are not touched; and the loop then goes on with the
    frame that follows.  (Text on which [json.loads] raises anything else,
    or returns a value that is not a dict, is not benign: it ends the
    loop.) *)
Theorem benign_frames_keep_the_loop_going
    (W : World) (frames rest : list Inbound) (s : Session) :
  (forall n, send_fault W n = None) ->
  forallb (benign W) frames = true ->
  exists s',
    async_for W (frames ++ rest) s = async_for W rest s' /\
    speech_recognizer s' = speech_recognizer s /\
    is_running s' = is_running s /\
    sends (trace s') = (sends (trace s) ++ flat_map (replies W) frames)%list /\
    recvs (trace s') = (recvs (trace s) ++ frames)%list.
Proof.
  intros Hw Hb.
  destruct (benign_frames_steps W Hw frames rest s Hb)
    as (s' & H1 & H2 & H3 & _ & H4 & H5).
  exists s'. repeat split; assumption.
Qed.

Lemma benign_frames_keep_the_loop_going_witness :
  let frames := [Recv (mk_frame BINARY "audio"); text_frame "not json";
                 text_frame "{}"; Recv (mk_frame PING "")] in
  (forall n, send_fault calm n = None) /\
  forallb (benign calm) frames = true /\
  exists s',
    async_for calm (frames ++ [text_frame close_request]) (new_session [])
    = async_for calm [text_frame close_request] s' /\
    sends (trace s')
    = [mk_msg "error" "Invalid JSON: Expecting value: line 1 column 1 (char 0)"].
Proof.
  split; [reflexivity|]. split; [reflexivity|].
  destruct (benign_frames_keep_the_loop_going calm
              [Recv (mk_frame BINARY "audio"); text_frame "not json";
               text_frame "{}"; Recv (mk_frame PING "")]
              [text_frame close_request] (new_session [])
              (fun n => eq_refl) eq_refl) as (s' & H1 & _ & _ & H2 & _).
  exists s'. split; [exact H1|exact H2].
Defined.

(** X7. A session that runs without trouble: the socket accepts writes, a
    run of benign frames arrives (in the sense of X6: untested message
    types, text with a [JSONDecodeError], text decoded to a dict that does
    not ask to close), and then a frame that ends the loop quietly: text
    that [json.loads] decodes to a dict whose [action] is [close], a close
    frame or an error frame of the transport.  The route returns normally.
    It has taken from the socket exactly the frames up to and including the
    one that ended the loop and left the rest unread; it answered only the
    texts with a [JSONDecodeError]; it wrote nothing for the frame that ended
    it; and it stopped the recognition it had started. *)
Theorem session_ends_at_the_first_closing_frame
    (W : World) (frames : list Inbound) (last : Inbound) (rest : list Inbound) :
  prepare_fault W = None -> init_failure W = None ->
  (forall n, send_fault W n = None) ->
  forallb (benign W) frames = true ->
  ends_quietly W last = true ->
  let r := run W (frames ++ last :: rest) in
  fst r = Returns tt /\
  sends (trace (snd r)) = flat_map (replies W) frames /\
  recvs (trace (snd r)) = (frames ++ [last])%list /\
  inbox (snd r) = rest /\
  count is_up_stop (trace (snd r)) = (if raised (start_fault W 0) then 0 else 1).
Proof.
  intros Hp Hi Hw Hb He.
  assert (Hup : count is_up_stop (trace (snd (run W (frames ++ last :: rest))))
                = (if raised (start_fault W 0) then 0 else 1)).
  { destruct (run_ends_in_teardown W (frames ++ last :: rest) Hp Hi) as (s0 & Hq & ->).
    destruct (teardown_facts W _ s0 Hq) as (_ & _ & H & _). rewrite H.
    destruct (raised (start_fault W 0)); reflexivity. }
  cbn zeta. split; [|split; [|split; [|split; [|exact Hup]]]];
    rewrite (run_initialized W _ Hp Hi), serve_eq; unfold message_loop;
    rewrite ready_inbox;
    destruct (benign_frames_steps W Hw frames (last :: rest) (ready W (frames ++ last :: rest)) Hb)
      as (s1 & -> & _ & _ & _ & Hs1 & Hr1);
    destruct (quiet_end_step W last rest s1 He) as (s2 & -> & Hi2 & Hs2 & Hr2);
    destruct (ready_sends_recvs W (frames ++ last :: rest)) as (Rs & Rr & _);
    cbn [fst snd].
  - reflexivity.
  - rewrite closed_trace, after_stop_trace, !sends_app. cbn [sends].
    rewrite sends_stop_effects, Hs2, Hs1, Rs, !app_nil_r. reflexivity.
  - rewrite closed_trace, after_stop_trace, !recvs_app. cbn [recvs].
    rewrite recvs_stop_effects, Hr2, Hr1, Rr, !app_nil_r. reflexivity.
  - unfold closed. cbn [emit inbox]. rewrite after_stop_inbox. exact Hi2.
Qed.

Lemma session_ends_at_the_first_closing_frame_witness :
  prepare_fault calm = None /\ init_failure calm = None /\
  forallb (benign calm) [text_frame "not json"; text_frame "{}"] = true /\
  ends_quietly calm (text_frame close_request) = true /\
  inbox (snd (run calm ([text_frame "not json"; text_frame "{}"]
                        ++ text_frame close_request :: [text_frame "{}"])))
  = [text_frame "{}"].
Proof.
  split; [reflexivity|]. split; [reflexivity|]. split; [reflexivity|].
  split; [reflexivity|].
  exact (proj1 (proj2 (proj2 (proj2
    (session_ends_at_the_first_closing_frame calm
       [text_frame "not json"; text_frame "{}"] (text_frame close_request)
       [text_frame "{}"] eq_refl eq_refl (fun n => eq_refl) eq_refl eq_refl))))).
Defined.

(** ** The route as a whole *)

Lemma run_refused (W : World) (frames : list Inbound) (e : exn) :
  prepare_fault W = Some e ->
  run W frames = (Raises e, emit (EPrepare (Some e)) (new_session frames)).
Proof.
  intros Hp. unfold run, handle_transcribe_ws, bind, external. rewrite Hp. reflexivity.
Qed.

(** The trace of a route whose initialization succeeded: what led to the
    [try] statement, what the loop added, what the [except] clause added if
    it ran, and the cleanup. *)
Lemma run_shape (W : World) (frames : list Inbound) :
  prepare_fault W = None -> init_failure W = None ->
  exists d x tail,
    trace (snd (run W frames)) = (trace (ready W frames) ++ d ++ x ++ tail)%list /\
    (recvs d ++ inbox (snd (run W frames)))%list = frames /\
    count is_send d <= length (recvs d) /\
    forallb writes_only_errors d = true /\
    recvs tail = [] /\ sends tail = [] /\
    ((x = [] /\ fst (run W frames) = Returns tt) \/
     (exists e n,
        x = [ELog ERROR_LEVEL ("Error in transcription WebSocket: " ++ exn_str e);
             ESend (server_error_frame e) (send_fault W n)] /\
        fst (run W frames) = outcome_of (send_fault W n))).
Proof.
  intros Hp Hi. rewrite (run_initialized W frames Hp Hi), serve_eq.
  unfold message_loop.
  destruct (async_for W (inbox (ready W frames)) (ready W frames)) as [r s1] eqn:Hl.
  apply async_for_delta in Hl as (d & Ht & Hr & Hc & He); [|reflexivity].
  rewrite ready_inbox in Hr.
  destruct r as [[]|e]; cbn [fst snd].
  - exists d, [], (ECall stop_recognition_m
                    :: stop_effects W s1 ++ [ELog INFO "WebSocket /transcribe/ws closed"])%list.
    split; [|split; [|split; [|split; [|split; [|split]]]]].
    + rewrite closed_trace, after_stop_trace, Ht, <- !app_assoc. reflexivity.
    + unfold closed. cbn [emit inbox]. rewrite after_stop_inbox. exact Hr.
    + exact Hc.
    + exact He.
    + cbn [recvs]. rewrite recvs_app, recvs_stop_effects. reflexivity.
    + cbn [sends]. rewrite sends_app, sends_stop_effects. reflexivity.
    + left. split; reflexivity.
  - exists d,
      [ELog ERROR_LEVEL ("Error in transcription WebSocket: " ++ exn_str e);
       ESend (server_error_frame e) (send_fault W (count is_send (trace s1)))],
      (ECall stop_recognition_m
         :: stop_effects W (report W e s1) ++ [ELog INFO "WebSocket /transcribe/ws closed"])%list.
    split; [|split; [|split; [|split; [|split; [|split]]]]].
    + rewrite closed_trace, after_stop_trace, report_trace, Ht, <- !app_assoc.
      reflexivity.
    + unfold closed. cbn [emit inbox]. rewrite after_stop_inbox. exact Hr.
    + exact Hc.
    + exact He.
    + cbn [recvs]. rewrite recvs_app, recvs_stop_effects. reflexivity.
    + cbn [sends]. rewrite sends_app, sends_stop_effects. reflexivity.
    + right. exists e, (count is_send (trace s1)). split; reflexivity.
Qed.

(** X8. An exception leaves the route only if it is the exception of the
    handshake or the exception of a write to the client socket.  Nothing the
    client sends, nothing the decoder, the receive or the engine raises, and
    no failure of the initialization itself gets out; so on a socket that
    accepts the handshake and every write the route always returns
    normally. *)
Theorem only_socket_failures_leave_the_route
    (W : World) (frames : list Inbound) :
  (forall e, fst (run W frames) = Raises e ->
     prepare_fault W = Some e \/ exists n, send_fault W n = Some e) /\
  (prepare_fault W = None -> (forall n, send_fault W n = None) ->
     fst (run W frames) = Returns tt).
Proof.
  assert (H : forall e, fst (run W frames) = Raises e ->
            prepare_fault W = Some e \/ exists n, send_fault W n = Some e).
  { intros e Hr. destruct (prepare_fault W) as [x|] eqn:Hp.
    - rewrite (run_refused W frames x Hp) in Hr. cbn [fst] in Hr. left. congruence.
    - right. destruct (init_failure W) as [e0|] eqn:Hi.
      + destruct (run_uninitialized W frames e0 Hp Hi) as [r Hrun].
        rewrite Hrun in Hr. cbn [fst] in Hr. exists 0.
        destruct (send_fault W 0); [cbn in Hr; congruence|discriminate].
      + destruct (run_shape W frames Hp Hi)
          as (d & x & tail & _ & _ & _ & _ & _ & _ & [[_ Hf]|(e1 & n & _ & Hf)]).
        * rewrite Hf in Hr. discriminate.
        * rewrite Hf in Hr. exists n.
          destruct (send_fault W n); [cbn in Hr; congruence|discriminate]. }
  split; [exact H|].
  intros Hp Hw. destruct (fst (run W frames)) as [[]|e] eqn:Hr; [reflexivity|].
  destruct (H e eq_refl) as [Hx|[n Hx]]; congruence.
Qed.

Lemma only_socket_failures_leave_the_route_witness :
  fst (run client_gone [text_frame "not json"]) = Raises ConnectionResetError /\
  (prepare_fault client_gone = Some ConnectionResetError \/
   exists n, send_fault client_gone n = Some ConnectionResetError).
Proof.
  split; [reflexivity|].
  exact (proj1 (only_socket_failures_leave_the_route client_gone
                  [text_frame "not json"]) ConnectionResetError eq_refl).
Defined.

Lemma sends_of_errors (tr : list Effect) :
  forallb writes_only_errors tr = true ->
  forall m, In m (sends tr) -> msg_type m = "error".
Proof.
  induction tr as [|e tr IH]; intros H m Hin; [destruct Hin|].
  cbn [forallb] in H. apply andb_true_iff in H as [He Htr].
  destruct e; cbn [sends] in Hin; try (apply (IH Htr m Hin)).
  destruct Hin as [<-|Hin]; [|apply (IH Htr m Hin)].
  apply String.eqb_eq. exact He.
Qed.

(** X9. Every frame the route itself writes to the client is an error
    frame.  Transcripts and the session-stopped notice come only from the
    recognizer's callbacks; the route never announces that it is ready, never
    acknowledges a frame and never confirms a close. *)
Theorem the_route_writes_only_errors
    (W : World) (frames : list Inbound) (m : OutMsg) :
  In m (sends (trace (snd (run W frames)))) -> msg_type m = "error".
Proof.
  apply sends_of_errors.
  destruct (prepare_fault W) as [x|] eqn:Hp.
  - rewrite (run_refused W frames x Hp). reflexivity.
  - destruct (init_failure W) as [e0|] eqn:Hi.
    + destruct (run_uninitialized W frames e0 Hp Hi) as [r ->]. reflexivity.
    + destruct (run_shape W frames Hp Hi)
        as (d & x & tail & -> & _ & _ & He & _ & Hs & Hx).
      destruct (ready_sends_recvs W frames) as (_ & _ & Hr).
      rewrite !forallb_app, Hr, He. cbn [andb].
      assert (Ht : forallb writes_only_errors tail = true).
      { clear - Hs. induction tail as [|e tail IH]; [reflexivity|].
        destruct e; cbn [sends] in Hs; try discriminate; cbn; auto. }
      rewrite Ht, andb_true_r.
      destruct Hx as [[-> _]|(e & n & -> & _)]; reflexivity.
Qed.

Lemma the_route_writes_only_errors_witness :
  In (mk_msg "error" "Invalid JSON: Expecting value: line 1 column 1 (char 0)")
     (sends (trace (snd (run calm [text_frame "not json"])))) /\
  msg_type (mk_msg "error" "Invalid JSON: Expecting value: line 1 column 1 (char 0)")
  = "error".
Proof.
  assert (H : In (mk_msg "error" "Invalid JSON: Expecting value: line 1 column 1 (char 0)")
                 (sends (trace (snd (run calm [text_frame "not json"]))))).
  { left. reflexivity. }
  split; [exact H|].
  exact (the_route_writes_only_errors calm [text_frame "not json"] _ H).
Defined.

(** X11. The route writes at most one frame for each frame it took from the
    socket, and one more in all: the initialization error, or the server
    error for the exception that ended the loop.  A client cannot make it
    write more than it sent, plus one. *)
Theorem writes_are_bounded_by_receives (W : World) (frames : list Inbound) :
  count is_send (trace (snd (run W frames)))
  <= count is_recv (trace (snd (run W frames))) + 1 /\
  count is_recv (trace (snd (run W frames))) <= length frames.
Proof.
  destruct (prepare_fault W) as [x|] eqn:Hp.
  - rewrite (run_refused W frames x Hp). cbn. lia.
  - destruct (init_failure W) as [e0|] eqn:Hi.
    + destruct (run_uninitialized W frames e0 Hp Hi) as [r ->]. cbn. lia.
    + destruct (run_shape W frames Hp Hi)
        as (d & x & tail & Ht & Hr & Hc & _ & Htail & Hs & Hx).
      destruct (ready_counts W frames) as (_ & _ & Cs & Cr & _).
      rewrite Ht, !count_app, Cs, Cr.
      assert (Hst : count is_send tail = 0).
      { clear - Hs. induction tail as [|e tail IH]; [reflexivity|].
        rewrite count_cons. destruct e; cbn [sends] in Hs; try discriminate;
          cbn [is_send]; auto. }
      assert (Hrt : count is_recv tail = 0).
      { rewrite count_recv_length, Htail. reflexivity. }
      assert (Hx' : count is_send x <= 1 /\ count is_recv x = 0).
      { destruct Hx as [[-> _]|(e & n & -> & _)]; cbn; lia. }
      assert (Hlen : length (recvs d) <= length frames).
      { pose proof (f_equal (@length Inbound) Hr) as Hl.
        rewrite length_app in Hl. lia. }
      rewrite Hst, Hrt, (count_recv_length d). lia.
Qed.

Lemma flag_is_exact_quiet (s s' : Session) :
  extends_quietly s s' -> flag_is_exact s -> flag_is_exact s'.
Proof.
  intros (_ & Hf & d & Ht & Hd) H. unfold flag_is_exact in *.
  rewrite Ht, active_app, (active_loop_effects d Hd), Hf, H. lia.
Qed.

Lemma ready_flag (W : World) (frames : list Inbound) : flag_is_exact (ready W frames).
Proof. unfold ready. apply after_start_flag. reflexivity. Qed.

Lemma ready_started (W : World) (frames : list Inbound) :
  count is_started (trace (ready W frames)) = (if raised (start_fault W 0) then 0 else 1).
Proof.
  unfold ready, after_start. cbn. destruct (start_fault W 0); reflexivity.
Qed.

Lemma stop_effects_no_start (W : World) (s : Session) :
  count is_up_start (stop_effects W s) = 0 /\ count is_started (stop_effects W s) = 0.
Proof.
  unfold stop_effects. destruct (armed s); [|split; reflexivity].
  destruct (stop_fault W _); split; reflexivity.
Qed.

(** X12. On one connection the engine is started at most once and stopped
    at most once, and it is stopped only if its start had returned: the
    route never stops an engine it did not start.  When the route ends, the
    running flag is set exactly if a recognition is still in progress.  This
    holds for every stream of frames and every answer of the outside
    world. *)
Theorem the_engine_is_started_and_stopped_at_most_once
    (W : World) (frames : list Inbound) :
  let s := snd (run W frames) in
  count is_up_start (trace s) <= 1 /\
  count is_up_stop (trace s) <= count is_started (trace s) /\
  count is_up_stop (trace s) <= 1 /\
  flag_is_exact s.
Proof.
  cbn zeta. destruct (prepare_fault W) as [x|] eqn:Hp.
  - rewrite (run_refused W frames x Hp). cbn. repeat split; lia.
  - destruct (init_failure W) as [e0|] eqn:Hi.
    + destruct (run_uninitialized W frames e0 Hp Hi) as [r ->]. cbn.
      repeat split; lia.
    + destruct (run_ends_in_teardown W frames Hp Hi) as (s0 & Hq & ->).
      destruct (teardown_facts W frames s0 Hq) as (_ & _ & Hstop & _).
      pose proof Hq as (_ & _ & d & Ht & Hd).
      destruct (ready_counts W frames) as (_ & _ & _ & _ & Cstart & _).
      destruct (stop_effects_no_start W s0) as (E1 & E2).
      assert (Hstart : count is_up_start (trace (closed (after_stop W s0))) = 1).
      { rewrite closed_trace, after_stop_trace, Ht, !count_app, count_cons, Cstart, E1.
        rewrite (count_loop_effects is_up_start d); [reflexivity| |assumption].
        intros []; simpl; congruence. }
      assert (Hstarted : count is_started (trace (closed (after_stop W s0)))
                         = (if raised (start_fault W 0) then 0 else 1)).
      { rewrite closed_trace, after_stop_trace, Ht, !count_app, count_cons.
        rewrite ready_started, E2.
        rewrite (count_loop_effects is_started d); [cbn; lia| |assumption].
        intros []; simpl; congruence. }
      rewrite Hstart, Hstarted, Hstop.
      split; [lia|]. split; [destruct (raised (start_fault W 0)); cbn; lia|].
      split; [destruct (raised (start_fault W 0)); cbn; lia|].
      assert (Hflag : flag_is_exact (after_stop W s0)).
      { apply after_stop_flag. apply (flag_is_exact_quiet _ _ Hq), ready_flag. }
      unfold flag_is_exact in *. rewrite closed_trace, active_app.
      cbn [active closed emit is_running]. rewrite Hflag. lia.
Qed.

(** ** The application factory *)

Lemma truthy_some (v : option string) :
  truthy v = true -> exists s, v = Some s /\ s <> "" /\ from_env v = s.
Proof.
  destruct v as [s|]; [|discriminate]. cbn. intros H. exists s.
  apply negb_true_iff, String.eqb_neq in H. repeat split. exact H.
Qed.

Lemma truthy_of_some (environ : string -> option string) (key v : string) :
  environ key = Some v -> v <> "" -> truthy (environ key) = true.
Proof.
  intros -> H. cbn. apply negb_true_iff, String.eqb_neq. exact H.
Qed.

Lemma get_or_nonempty (environ : string -> option string) (key default : string) :
  default <> "" -> get_or environ key default <> "".
Proof.
  intros Hd. unfold get_or. destruct (truthy (environ key)) eqn:Ht; [|exact Hd].
  destruct (truthy_some _ Ht) as (s & _ & Hs & ->). exact Hs.
Qed.

Lemma each_service_credential_aux (environ : string -> option string) :
  llm_credential environ <> None /\ search_credential environ <> None.
Proof.
  unfold llm_credential, search_credential, credential. split.
  - destruct (truthy (environ "AZURE_OPENAI_API_KEY")); [discriminate|].
    cbn. destruct (truthy (environ "AZURE_TENANT_ID")); discriminate.
  - destruct (truthy (environ "AZURE_SEARCH_API_KEY")); [discriminate|].
    rewrite orb_true_r. destruct (truthy (environ "AZURE_TENANT_ID")); discriminate.
Qed.

(** X13. Whatever the environment holds, both services get a credential:
    neither [llm_credential] nor [search_credential] is ever [None].  A
    service whose key is set and not empty gets that key, also when the
    other key is missing; a service whose key is missing or empty gets the
    identity credential, which is built only in that case, is the developer
    CLI credential of the tenant (with a timeout of 60) when a tenant id is
    set and not empty, and the default credential otherwise.  When both keys
    are missing the two services share one credential. *)
Theorem each_service_gets_a_credential (environ : string -> option string) :
  llm_credential environ <> None /\
  search_credential environ <> None /\
  (forall k, environ "AZURE_OPENAI_API_KEY" = Some k -> k <> "" ->
     llm_credential environ = Some (AzureKeyCredential k)) /\
  (forall k, environ "AZURE_SEARCH_API_KEY" = Some k -> k <> "" ->
     search_credential environ = Some (AzureKeyCredential k)) /\
  (credential environ = None <->
   truthy (environ "AZURE_OPENAI_API_KEY") && truthy (environ "AZURE_SEARCH_API_KEY") = true) /\
  (truthy (environ "AZURE_OPENAI_API_KEY") = false ->
   llm_credential environ =
     Some (if truthy (environ "AZURE_TENANT_ID")
           then AzureDeveloperCliCredential (from_env (environ "AZURE_TENANT_ID")) 60
           else DefaultAzureCredential)) /\
  (truthy (environ "AZURE_SEARCH_API_KEY") = false ->
   search_credential environ =
     Some (if truthy (environ "AZURE_TENANT_ID")
           then AzureDeveloperCliCredential (from_env (environ "AZURE_TENANT_ID")) 60
           else DefaultAzureCredential)).
Proof.
  unfold llm_credential, search_credential, credential.
  split; [|split; [|split; [|split; [|split; [|split]]]]].
  - destruct (truthy (environ "AZURE_OPENAI_API_KEY")); [discriminate|].
    cbn. destruct (truthy (environ "AZURE_TENANT_ID")); discriminate.
  - destruct (truthy (environ "AZURE_SEARCH_API_KEY")); [discriminate|].
    rewrite orb_true_r. destruct (truthy (environ "AZURE_TENANT_ID")); discriminate.
  - intros k Hk Hne. rewrite (truthy_of_some environ _ k Hk Hne), Hk. reflexivity.
  - intros k Hk Hne. rewrite (truthy_of_some environ _ k Hk Hne), Hk. reflexivity.
  - destruct (truthy (environ "AZURE_OPENAI_API_KEY")),
             (truthy (environ "AZURE_SEARCH_API_KEY")); cbn;
      try (destruct (truthy (environ "AZURE_TENANT_ID")));
      split; intros H; try reflexivity; try discriminate.
  - intros ->. cbn. destruct (truthy (environ "AZURE_TENANT_ID")); reflexivity.
  - intros ->. rewrite orb_true_r.
    destruct (truthy (environ "AZURE_TENANT_ID")); reflexivity.
Qed.

Lemma each_service_gets_a_credential_witness :
  let environ := fun name =>
    if String.eqb name "AZURE_SEARCH_API_KEY" then Some "s3cr3t"
    else if String.eqb name "AZURE_OPENAI_API_KEY" then Some ""
    else None in
  environ "AZURE_SEARCH_API_KEY" = Some "s3cr3t" /\
  truthy (environ "AZURE_OPENAI_API_KEY") = false /\
  search_credential environ = Some (AzureKeyCredential "s3cr3t") /\
  llm_credential environ = Some DefaultAzureCredential.
Proof.
  cbn zeta.
  split; [reflexivity|]. split; [reflexivity|]. split.
  - refine (proj1 (proj2 (proj2 (proj2 (each_service_gets_a_credential _))))
              "s3cr3t" eq_refl _).
    discriminate.
  - exact (proj1 (proj2 (proj2 (proj2 (proj2 (proj2
             (each_service_gets_a_credential
                (fun name =>
                   if String.eqb name "AZURE_SEARCH_API_KEY" then Some "s3cr3t"
                   else if String.eqb name "AZURE_OPENAI_API_KEY" then Some ""
                   else None))))))) eq_refl).
Defined.

(** X14. On the way to [RTMiddleTier(...)] the credentials come first: if
    the constructor of the identity credential raises, that exception leaves
    [create_app] before the endpoint is looked up, also when the endpoint is
    missing.  When no constructor raises, the arguments are computed exactly
    when the endpoint and the deployment are both in the environment.  A
    missing endpoint raises the [KeyError] of the endpoint, also when the
    deployment is missing too; a missing deployment raises its own.  When
    both are present they are passed on as they are, empty or not, with the
    credential chosen for the service and with a voice that is never empty:
    the configured one, or [alloy] when none is set or it is empty. *)
Theorem realtime_tier_needs_endpoint_and_deployment
    (construct : Credential -> option exn) (environ : string -> option string) :
  (forall c e, credential environ = Some c -> construct c = Some e ->
     rtmt_arguments construct environ = inl e) /\
  ((forall c, construct c = None) ->
   (environ "AZURE_OPENAI_ENDPOINT" = None ->
    rtmt_arguments construct environ = inl (KeyError "AZURE_OPENAI_ENDPOINT")) /\
   (environ "AZURE_OPENAI_ENDPOINT" <> None ->
    environ "AZURE_OPENAI_REALTIME_DEPLOYMENT" = None ->
    rtmt_arguments construct environ = inl (KeyError "AZURE_OPENAI_REALTIME_DEPLOYMENT")) /\
   (forall endpoint deployment,
      environ "AZURE_OPENAI_ENDPOINT" = Some endpoint ->
      environ "AZURE_OPENAI_REALTIME_DEPLOYMENT" = Some deployment ->
      exists a,
        rtmt_arguments construct environ = inr a /\
        rtmt_endpoint a = endpoint /\
        rtmt_deployment a = deployment /\
        rtmt_credentials a = llm_credential environ /\
        rtmt_credentials a <> None /\
        rtmt_voice_choice a <> "" /\
        (truthy (environ "AZURE_OPENAI_REALTIME_VOICE_CHOICE") = false ->
         rtmt_voice_choice a = "alloy") /\
        (forall v, environ "AZURE_OPENAI_REALTIME_VOICE_CHOICE" = Some v -> v <> "" ->
         rtmt_voice_choice a = v))).
Proof.
  split.
  - intros c e Hc He. unfold rtmt_arguments. unfold credential in Hc.
    destruct (negb (truthy (environ "AZURE_OPENAI_API_KEY"))
              || negb (truthy (environ "AZURE_SEARCH_API_KEY"))); [|discriminate].
    destruct (truthy (environ "AZURE_TENANT_ID"));
      injection Hc as <-; unfold build; rewrite He; reflexivity.
  - intros Hok.
    assert (Hpre : forall k : exn + RTMiddleTierArgs,
      (match environ_item environ "AZURE_OPENAI_ENDPOINT" with
       | inl e => inl e
       | inr endpoint =>
           match environ_item environ "AZURE_OPENAI_REALTIME_DEPLOYMENT" with
           | inl e => inl e
           | inr deployment =>
               inr (mk_rtmt_args (llm_credential environ) endpoint deployment
                      (get_or environ "AZURE_OPENAI_REALTIME_VOICE_CHOICE" "alloy"))
           end
       end) = k -> rtmt_arguments construct environ = k).
    { intros k <-. unfold rtmt_arguments, build, llm_credential, credential.
      rewrite !Hok.
      destruct (truthy (environ "AZURE_OPENAI_API_KEY")),
               (truthy (environ "AZURE_SEARCH_API_KEY")); cbn [negb orb];
        try (destruct (truthy (environ "AZURE_TENANT_ID")); rewrite ?Hok);
        reflexivity. }
    unfold environ_item in Hpre. split; [|split].
    + intros H. apply Hpre. rewrite H. reflexivity.
    + intros He H. apply Hpre. rewrite H.
      destruct (environ "AZURE_OPENAI_ENDPOINT"); [reflexivity|congruence].
    + intros endpoint deployment He Hd. eexists. split.
      * apply Hpre. rewrite He, Hd. reflexivity.
      * cbn [rtmt_endpoint rtmt_deployment rtmt_credentials rtmt_voice_choice].
        repeat split.
        -- apply (each_service_credential_aux environ).
        -- apply get_or_nonempty. discriminate.
        -- intros H. unfold get_or. rewrite H. reflexivity.
        -- intros v Hv Hne. unfold get_or.
           rewrite (truthy_of_some environ _ v Hv Hne), Hv. reflexivity.
Qed.

Lemma realtime_tier_needs_endpoint_and_deployment_witness :
  credential bad_tenant_only = Some (AzureDeveloperCliCredential "bad tenant" 60) /\
  refuses_bad_tenant (AzureDeveloperCliCredential "bad tenant" 60)
  = Some (ValueError "Invalid tenant ID provided.") /\
  bad_tenant_only "AZURE_OPENAI_ENDPOINT" = None /\
  rtmt_arguments refuses_bad_tenant bad_tenant_only
  = inl (ValueError "Invalid tenant ID provided.") /\
  (forall c : Credential, no_fault c = None) /\
  exists a,
    rtmt_arguments no_fault realtime_only = inr a /\
    rtmt_voice_choice a = "alloy".
Proof.
  split; [reflexivity|]. split; [reflexivity|]. split; [reflexivity|]. split.
  - exact (proj1 (realtime_tier_needs_endpoint_and_deployment
                    refuses_bad_tenant bad_tenant_only)
             _ _ eq_refl eq_refl).
  - split; [reflexivity|].
    destruct (proj2 (proj2 (proj2 (realtime_tier_needs_endpoint_and_deployment
                                     no_fault realtime_only)
                              (fun c => eq_refl)))
                "wss://example.openai.azure.com" "gpt-4o-realtime" eq_refl eq_refl)
      as (a & Ha & _ & _ & _ & _ & _ & Hv & _).
    exists a. split; [exact Ha|]. apply Hv. reflexivity.
Defined.

(** X15. The settings of the search tool always name their fields: the
    identifier, content, embedding and title field are never empty, each
    being the configured name or else [chunk_id], [chunk], [text_vector] and
    [title]; the semantic configuration is a name or [None], never the empty
    string; and a credential is always passed.  The vector query is switched
    differently: it is on exactly when its variable is unset or is the
    string [true], so an empty value turns it off where it would select the
    default of any other field. *)
Theorem search_tool_settings_are_never_blank (environ : string -> option string) :
  let a := rag_tools_arguments environ in
  identifier_field a <> "" /\
  content_field a <> "" /\
  embedding_field a <> "" /\
  title_field a <> "" /\
  semantic_configuration a <> Some "" /\
  rag_credentials a <> None /\
  (truthy (environ "AZURE_SEARCH_IDENTIFIER_FIELD") = false -> identifier_field a = "chunk_id") /\
  (truthy (environ "AZURE_SEARCH_CONTENT_FIELD") = false -> content_field a = "chunk") /\
  (truthy (environ "AZURE_SEARCH_EMBEDDING_FIELD") = false -> embedding_field a = "text_vector") /\
  (truthy (environ "AZURE_SEARCH_TITLE_FIELD") = false -> title_field a = "title") /\
  (use_vector_query a = true <->
   environ "AZURE_SEARCH_USE_VECTOR_QUERY" = None \/
   environ "AZURE_SEARCH_USE_VECTOR_QUERY" = Some "true").
Proof.
  cbn zeta. unfold rag_tools_arguments.
  cbn [identifier_field content_field embedding_field title_field
       semantic_configuration rag_credentials use_vector_query].
  split; [apply get_or_nonempty; discriminate|].
  split; [apply get_or_nonempty; discriminate|].
  split; [apply get_or_nonempty; discriminate|].
  split; [apply get_or_nonempty; discriminate|].
  split.
  { destruct (truthy (environ "AZURE_SEARCH_SEMANTIC_CONFIGURATION")) eqn:Ht;
      [|discriminate].
    destruct (truthy_some _ Ht) as (v & -> & Hv & _). congruence. }
  split; [apply (each_service_credential_aux environ)|].
  split; [intros H; unfold get_or; rewrite H; reflexivity|].
  split; [intros H; unfold get_or; rewrite H; reflexivity|].
  split; [intros H; unfold get_or; rewrite H; reflexivity|].
  split; [intros H; unfold get_or; rewrite H; reflexivity|].
  destruct (environ "AZURE_SEARCH_USE_VECTOR_QUERY") as [v|].
  - rewrite String.eqb_eq. split.
    + intros ->. right. reflexivity.
    + intros [H|H]; congruence.
  - split; [intros _; left; reflexivity|reflexivity].
Qed.

Lemma search_tool_settings_are_never_blank_witness :
  let environ := fun name =>
    if String.eqb name "AZURE_SEARCH_USE_VECTOR_QUERY" then Some ""
    else if String.eqb name "AZURE_SEARCH_TITLE_FIELD" then Some ""
    else None in
  truthy (environ "AZURE_SEARCH_TITLE_FIELD") = false /\
  title_field (rag_tools_arguments environ) = "title" /\
  use_vector_query (rag_tools_arguments environ) = false.
Proof.
  cbn zeta. split; [reflexivity|]. split; [|reflexivity].
  exact (proj1 (proj2 (proj2 (proj2 (proj2 (proj2 (proj2 (proj2 (proj2 (proj2
    (search_tool_settings_are_never_blank
       (fun name =>
          if String.eqb name "AZURE_SEARCH_USE_VECTOR_QUERY" then Some ""
          else if String.eqb name "AZURE_SEARCH_TITLE_FIELD" then Some ""
          else None))))))))))) eq_refl).
Defined.
